(** * Character device base class (src/lib/cdev/CDev.cpp)

    A shallow embedding of [cdev::CDev]: the open/close reference counting
    with its first-open / last-close hooks, the registration step [init],
    and the poll-waiter table with its notification path.

    Conventions of the embedding.
    - Pointers are addresses ([N]); [nullptr] is address 0.  The objects the
      device only borrows ([px4_pollfd_struct_t] records and the semaphores
      they point to) live in an explicit [memory], so that two table slots
      holding the same pointer, or two records pointing to the same
      semaphore, alias as they do in the program.
    - Undefined behaviour of the C++ code (reading a table slot that was
      never written, indexing outside the table, dereferencing a pointer
      that is not mapped) is an explicit [Fault] outcome.
    - [lock()]/[unlock()] and [ATOMIC_ENTER]/[ATOMIC_LEAVE] bracket the
      bodies and have no sequential effect; they are not represented.
    - [PX4_DEBUG]/[PX4_ERR] logging is not represented. *)

From stdpp Require Import gmap gmultiset strings pretty list.
From Stdlib Require Import ZArith Lia.

Local Open Scope Z_scope.

Module cdev.

(** ** Result codes *)

(** The values of the platform headers. *)
Definition PX4_OK : Z := 0.
Definition PX4_ERROR : Z := -1.

(** errno values. *)
Definition EBADF : Z := 9.
Definition ENOMEM : Z := 12.
Definition EINVAL : Z := 22.

(** ** Pointers *)

Abbreviation ptr := N (only parsing).
Definition nullptr : ptr := 0%N.

(** [file_t *] is only ever passed through to the hooks and stored in
    [fds->priv]. *)
Abbreviation file_t_ptr := N (only parsing).

(** ** The device object *)

(** One element of the array behind [_pollset].  The array [new] hands out is
    storage whose elements have not been written: [Uninit]. *)
Inductive slot : Type :=
  | Uninit
  | Slot (p : ptr).

#[global] Instance slot_eq_dec : EqDecision slot.
Proof. solve_decision. Defined.

(** The data members of [CDev] that the member functions below use.
    [_pollset] is the array the member points to ([[]] for the initial
    [nullptr]); [_max_pollwaiters] is the separate [uint8_t] that the code
    keeps as its size. *)
Record CDev : Type := mkCDev {
  _devname : option string;
  _registered : bool;
  _open_count : Z;
  _pollset : list slot;
  _max_pollwaiters : Z
}.

Definition set_registered (d : CDev) (b : bool) : CDev :=
  mkCDev (_devname d) b (_open_count d) (_pollset d) (_max_pollwaiters d).

Definition set_open_count (d : CDev) (c : Z) : CDev :=
  mkCDev (_devname d) (_registered d) c (_pollset d) (_max_pollwaiters d).

Definition set_pollset (d : CDev) (t : list slot) : CDev :=
  mkCDev (_devname d) (_registered d) (_open_count d) t (_max_pollwaiters d).

Definition set_max_pollwaiters (d : CDev) (n : Z) : CDev :=
  mkCDev (_devname d) (_registered d) (_open_count d) (_pollset d) n.

(** The object right after [CDev::CDev(devname)]. *)
Definition CDev_new (devname : option string) : CDev :=
  mkCDev devname false 0 [] 0.

(** ** Virtual member functions

    The hooks a driver overrides.  They are taken to act on the state [S]
    the subclass adds, not on the data members of [CDev] above, and to hand
    back their result together with that state. *)
Class CDevOps (S : Type) : Type := {
  open_first : file_t_ptr → S → Z * S;
  close_last : file_t_ptr → S → Z * S;
  poll_state : file_t_ptr → S → Z * S
}.

(** [CDev::open_first], [CDev::close_last], [CDev::poll_state]: the
    bodies of the base class. *)
Definition CDev_open_first {S : Type} (filep : file_t_ptr) (s : S) : Z * S :=
  (PX4_OK, s).

Definition CDev_close_last {S : Type} (filep : file_t_ptr) (s : S) : Z * S :=
  (PX4_OK, s).

Definition CDev_poll_state {S : Type} (filep : file_t_ptr) (s : S) : Z * S :=
  (0, s).

Definition CDev_base_ops (S : Type) : CDevOps S :=
  {| open_first := CDev_open_first;
     close_last := CDev_close_last;
     poll_state := CDev_poll_state |}.

(** Which hook a call went to (the record of virtual calls made). *)
Inductive hook_call : Type :=
  | called_open_first (filep : file_t_ptr)
  | called_close_last (filep : file_t_ptr).

#[global] Instance hook_call_eq_dec : EqDecision hook_call.
Proof. solve_decision. Defined.

(** ** Open / close reference counting *)

Section lifecycle.
Context {S : Type} {ops : CDevOps S}.

(** The declaration of [_open_count] is in CDev.hpp, which is not part
    of the sources at hand; it is taken as an unsigned integer of
    [open_count_bits] bits, whatever that width is. *)
Variable open_count_bits : positive.

Definition open_count_wrap (z : Z) : Z := z mod 2 ^ Z.pos open_count_bits.

(** [CDev::open].  Returns the result, the device, the subclass state
    and the hooks that were called. *)
Definition open (filep : file_t_ptr) (d : CDev) (s : S)
  : Z * CDev * S * list hook_call :=
  let ret := PX4_OK in
  (* _open_count++ *)
  let d := set_open_count d (open_count_wrap (_open_count d + 1)) in
  if decide (_open_count d = 1) then
    let '(ret, s) := open_first filep s in
    let d :=
      if decide (ret ≠ PX4_OK)
      then set_open_count d (open_count_wrap (_open_count d - 1))
      else d in
    (ret, d, s, [called_open_first filep])
  else (ret, d, s, []).

(** [CDev::close]. *)
Definition close (filep : file_t_ptr) (d : CDev) (s : S)
  : Z * CDev * S * list hook_call :=
  let ret := PX4_OK in
  if decide (0 < _open_count d) then
    (* _open_count-- *)
    let d := set_open_count d (open_count_wrap (_open_count d - 1)) in
    if decide (_open_count d = 0) then
      let '(ret, s) := close_last filep s in
      (ret, d, s, [called_close_last filep])
    else (ret, d, s, [])
  else (- EBADF, d, s, []).

(** A session of calls on one device. *)
Inductive call : Type :=
  | call_open (filep : file_t_ptr)
  | call_close (filep : file_t_ptr).

(** What one call of a session did: the open count it found and left,
    its result and the hooks it called. *)
Record step : Type := mkStep {
  step_call : call;
  step_pre : Z;
  step_post : Z;
  step_ret : Z;
  step_hooks : list hook_call
}.

Definition do_call (c : call) (d : CDev) (s : S)
  : Z * CDev * S * list hook_call :=
  match c with
  | call_open filep => open filep d s
  | call_close filep => close filep d s
  end.

Fixpoint run (cs : list call) (d : CDev) (s : S) : list step * CDev * S :=
  match cs with
  | [] => ([], d, s)
  | c :: cs =>
      let '(ret, d', s', hooks) := do_call c d s in
      let '(steps, d'', s'') := run cs d' s' in
      (mkStep c (_open_count d) (_open_count d') ret hooks :: steps, d'', s'')
  end.

(** The hooks a call is to make, from the count it finds. *)
Definition hooks_due (c : call) (pre : Z) : list hook_call :=
  match c with
  | call_open filep => if decide (pre = 0) then [called_open_first filep] else []
  | call_close filep => if decide (pre = 1) then [called_close_last filep] else []
  end.

Definition is_open_first (h : hook_call) : bool :=
  match h with called_open_first _ => true | _ => false end.

Definition is_close_last (h : hook_call) : bool :=
  match h with called_close_last _ => true | _ => false end.

Definition all_hooks (steps : list step) : list hook_call :=
  concat (map step_hooks steps).

(** Calls of [open()] that found the count at 0 (the increment takes it
    from 0 to 1), and calls of [close()] that took it down to 0. *)
Definition opens_from_zero (st : step) : bool :=
  match step_call st with
  | call_open _ => bool_decide (step_pre st = 0)
  | call_close _ => false
  end.

Definition closes_to_zero (st : step) : bool :=
  match step_call st with
  | call_close _ => bool_decide (step_pre st = 1 ∧ step_post st = 0)
  | call_open _ => false
  end.

Definition open_count_ok (c : Z) : Prop :=
  0 ≤ c < 2 ^ Z.pos open_count_bits.

(** What one call may do: the count stays a count (in particular it is
    never negative), the hooks called are those due, an [open()] leaves
    the count incremented unless it was declined at 0, and a [close()]
    decrements only a positive count. *)
Definition step_ok (st : step) : Prop :=
  open_count_ok (step_pre st)
  ∧ open_count_ok (step_post st)
  ∧ step_hooks st = hooks_due (step_call st) (step_pre st)
  ∧ match step_call st with
    | call_open _ =>
        step_post st = open_count_wrap (step_pre st + 1)
        ∨ (step_pre st = 0 ∧ step_post st = 0 ∧ step_ret st ≠ PX4_OK)
    | call_close _ =>
        (step_pre st = 0 ∧ step_post st = 0 ∧ step_ret st = - EBADF)
        ∨ (0 < step_pre st ∧ step_post st = step_pre st - 1)
    end.

(** Each call starts from the count the previous one left. *)
Fixpoint chained (c : Z) (steps : list step) : Prop :=
  match steps with
  | [] => True
  | st :: steps => step_pre st = c ∧ chained (step_post st) steps
  end.

End lifecycle.

(** ** Registration *)

Section registration.
(** The namespace and [register_driver] belong to the platform, not to
    this file: any namespace state [NS] and any binding function.  Of
    the call [register_driver(_devname, &fops, 0666, this)] only the name
    varies. *)
Context {NS : Type}.
Variable register_driver : string → NS → Z * NS.

(** [CDev::init].  Returns the result, the device, the namespace and
    the names [register_driver] was called with. *)
Definition init (d : CDev) (ns : NS) : Z * CDev * NS * list string :=
  match _devname d with
  | Some devname =>
      let '(r, ns') := register_driver devname ns in
      if decide (r = PX4_OK)
      then (PX4_OK, set_registered d true, ns', [devname])
      else (PX4_ERROR, d, ns', [devname])
  | None => (PX4_ERROR, d, ns, [])
  end.
End registration.

(** A namespace that holds a set of names and refuses a name that is
    already bound, used to run [init] on concrete inputs. *)
Definition EEXIST : Z := 17.

Definition names_register_driver (name : string) (ns : gset string)
  : Z * gset string :=
  if decide (name ∈ ns) then (- EEXIST, ns) else (PX4_OK, {[name]} ∪ ns).

(** ** Undefined behaviour as an outcome *)

Inductive fault : Type :=
  | UninitializedRead
  | OutOfBounds
  | InvalidPointer.

Inductive outcome (A : Type) : Type :=
  | Done (a : A)
  | Fault (f : fault).
Arguments Done {A} a.
Arguments Fault {A} f.

#[global] Instance outcome_ret : MRet outcome := λ A a, Done a.
#[global] Instance outcome_bind : MBind outcome := λ A B k m,
  match m with
  | Done a => k a
  | Fault f => Fault f
  end.

(** ** Memory borrowed from the consumers *)

(** The fields of [px4_pollfd_struct_t] the device touches.  The event
    masks are bit sets; [&] and [|] on them are [Z.land] and [Z.lor], which
    stay within the range of [pollevent_t] whatever its width. *)
Record px4_pollfd_struct_t : Type := mkPollfd {
  events : Z;
  revents : Z;
  sem : ptr;
  priv : ptr
}.

Definition set_revents (f : px4_pollfd_struct_t) (r : Z) : px4_pollfd_struct_t :=
  mkPollfd (events f) r (sem f) (priv f).

Definition set_priv (f : px4_pollfd_struct_t) (p : ptr) : px4_pollfd_struct_t :=
  mkPollfd (events f) (revents f) (sem f) p.

Record px4_sem_t : Type := mkSem {
  semcount : Z
}.

(** [posted] lists, oldest first, the semaphores [px4_sem_post] was called
    on. *)
Record memory : Type := mkMemory {
  pollfds : gmap ptr px4_pollfd_struct_t;
  sems : gmap ptr px4_sem_t;
  posted : list ptr
}.

Definition load_pollfd (m : memory) (p : ptr) : outcome px4_pollfd_struct_t :=
  match pollfds m !! p with
  | Some f => Done f
  | None => Fault InvalidPointer
  end.

Definition store_pollfd (m : memory) (p : ptr) (f : px4_pollfd_struct_t)
  : memory :=
  mkMemory (<[p := f]> (pollfds m)) (sems m) (posted m).

Definition load_sem (m : memory) (p : ptr) : outcome px4_sem_t :=
  match sems m !! p with
  | Some sm => Done sm
  | None => Fault InvalidPointer
  end.

(** Modelled from the spec: [px4_sem_post] is the platform's semaphore
    post, not defined in this file; "post (increment/signal) the wake
    primitive".  The count goes up by one and the call is recorded. *)
Definition px4_sem_post (p : ptr) (m : memory) : outcome memory :=
  sm ← load_sem m p;
  Done (mkMemory (pollfds m)
                 (<[p := mkSem (semcount sm + 1)]> (sems m))
                 (posted m ++ [p])).

(** ** The poll-waiter table *)

Definition pollset_read (t : list slot) (i : nat) : outcome ptr :=
  match t !! i with
  | None => Fault OutOfBounds
  | Some Uninit => Fault UninitializedRead
  | Some (Slot p) => Done p
  end.

Definition pollset_write (t : list slot) (i : nat) (p : ptr)
  : outcome (list slot) :=
  if decide (i < length t)%nat then Done (<[i := Slot p]> t)
  else Fault OutOfBounds.

(** [memset(dst + off, 0, n * sizeof(slot))]: [n] slots from [off] on. *)
Definition memset_null (dst : list slot) (off n : nat) : outcome (list slot) :=
  if decide (off + n ≤ length dst)%nat
  then Done (take off dst ++ replicate n (Slot nullptr) ++ drop (off + n) dst)
  else Fault OutOfBounds.

(** [memcpy(dst, src, n * sizeof(slot))]: the first [n] slots. *)
Definition memcpy_slots (dst src : list slot) (n : nat) : outcome (list slot) :=
  if decide (n ≤ length dst ∧ n ≤ length src)%nat
  then Done (take n src ++ drop n dst)
  else Fault OutOfBounds.

Definition uint8 (z : Z) : Z := z mod 256.

(** The loop of [store_poll_waiter], at index [i] with [n] iterations to
    go: [Some t] is the table after the early [return PX4_OK], [None] is
    falling out of the loop. *)
Fixpoint store_scan (fds : ptr) (t : list slot) (i n : nat)
  : outcome (option (list slot)) :=
  match n with
  | O => Done None
  | S n =>
      p ← pollset_read t i;
      if decide (nullptr = p)
      then t' ← pollset_write t i fds; Done (Some t')
      else store_scan fds t (S i) n
  end.

(** [CDev::store_poll_waiter].  [alloc] tells whether the [new]
    expression for the [new_count] slots hands out storage ([true]) or
    [nullptr] ([false]). *)
Definition store_poll_waiter (fds : ptr) (alloc : bool) (d : CDev)
  : outcome (Z * CDev) :=
  found ← store_scan fds (_pollset d) 0 (Z.to_nat (_max_pollwaiters d));
  match found with
  | Some t => Done (PX4_OK, set_pollset d t)
  | None =>
      if decide (256 / 2 ≤ _max_pollwaiters d) then Done (- ENOMEM, d)
      else
        let new_count :=
          uint8 (if decide (0 < _max_pollwaiters d)
                 then _max_pollwaiters d * 2 else 1) in
        if alloc then
          let new_pollset := replicate (Z.to_nat new_count) Uninit in
          new_pollset ←
            (if decide (0 < _max_pollwaiters d) then
               t ← memset_null new_pollset (Z.to_nat (_max_pollwaiters d))
                     (Z.to_nat (new_count - _max_pollwaiters d));
               memcpy_slots t (_pollset d) (Z.to_nat (_max_pollwaiters d))
             else Done new_pollset);
          t ← pollset_write new_pollset (Z.to_nat (_max_pollwaiters d)) fds;
          Done (PX4_OK, set_max_pollwaiters (set_pollset d t) new_count)
        else Done (- ENOMEM, d)
  end.

(** The loop of [remove_poll_waiter]. *)
Fixpoint remove_scan (fds : ptr) (t : list slot) (i n : nat)
  : outcome (option (list slot)) :=
  match n with
  | O => Done None
  | S n =>
      p ← pollset_read t i;
      if decide (fds = p)
      then t' ← pollset_write t i nullptr; Done (Some t')
      else remove_scan fds t (S i) n
  end.

(** [CDev::remove_poll_waiter] *)
Definition remove_poll_waiter (fds : ptr) (d : CDev) : outcome (Z * CDev) :=
  found ← remove_scan fds (_pollset d) 0 (Z.to_nat (_max_pollwaiters d));
  match found with
  | Some t => Done (PX4_OK, set_pollset d t)
  | None => Done (- EINVAL, d)
  end.

(** ** Notification *)

Section notify.
(** [__PX4_NUTTX] selects how the count is read.  [px4_sem_getvalue]
    is the platform's; it gives the count it stores through its second
    argument, or [None] when it stores nothing. *)
Variable PX4_NUTTX : bool.
Variable px4_sem_getvalue : px4_sem_t → option Z.

Definition sem_value (sm : px4_sem_t) : Z :=
  if PX4_NUTTX then semcount sm
  else
    let value := -1 in
    match px4_sem_getvalue sm with
    | Some v => v
    | None => value
    end.

(** [CDev::poll_notify_one] *)
Definition poll_notify_one (fds : ptr) (evs : Z) (m : memory)
  : outcome memory :=
  f ← load_pollfd m fds;
  sm ← load_sem m (sem f);
  let value := sem_value sm in
  let f := set_revents f (Z.lor (revents f) (Z.land (events f) evs)) in
  let m := store_pollfd m fds f in
  if decide (revents f ≠ 0 ∧ value ≤ 0)
  then px4_sem_post (sem f) m
  else Done m.

(** The loop of [poll_notify]. *)
Fixpoint notify_loop (t : list slot) (evs : Z) (i n : nat) (m : memory)
  : outcome memory :=
  match n with
  | O => Done m
  | S n =>
      p ← pollset_read t i;
      m ← (if decide (nullptr ≠ p) then poll_notify_one p evs m else Done m);
      notify_loop t evs (S i) n m
  end.

(** [CDev::poll_notify] *)
Definition poll_notify (evs : Z) (d : CDev) (m : memory) : outcome memory :=
  notify_loop (_pollset d) evs 0 (Z.to_nat (_max_pollwaiters d)) m.

(** The count as far as it can be queried: always on NuttX, elsewhere
    when [px4_sem_getvalue] delivers one. *)
Definition queried_count (sm : px4_sem_t) : option Z :=
  if PX4_NUTTX then Some (semcount sm) else px4_sem_getvalue sm.

(** "the count is <= 0, or the count is not queryable" *)
Definition seems_asleep (sm : px4_sem_t) : Prop :=
  match queried_count sm with
  | Some v => v ≤ 0
  | None => True
  end.

#[global] Instance seems_asleep_dec sm : Decision (seems_asleep sm).
Proof. unfold seems_asleep. destruct (queried_count sm); apply _. Defined.

(** Visiting the waiters [ps] one after the other, first to last. *)
Fixpoint visit_each (ps : list ptr) (evs : Z) (m : memory) : outcome memory :=
  match ps with
  | [] => Done m
  | p :: ps => m ← poll_notify_one p evs m; visit_each ps evs m
  end.
End notify.

(** [CDev::poll]; [alloc] is passed on to [store_poll_waiter]. *)
Definition poll {S : Type} {ops : CDevOps S}
    (filep : file_t_ptr) (fds : ptr) (setup : bool) (alloc : bool)
    (d : CDev) (s : S) (m : memory) : outcome (Z * CDev * S * memory) :=
  if setup then
    (* fds->priv = filep *)
    f ← load_pollfd m fds;
    let m := store_pollfd m fds (set_priv f filep) in
    '(ret, d) ← store_poll_waiter fds alloc d;
    if decide (ret = PX4_OK) then
      f ← load_pollfd m fds;
      let '(state, s) := poll_state filep s in
      let f := set_revents f (Z.lor (revents f) (Z.land (events f) state)) in
      let m := store_pollfd m fds f in
      if decide (revents f ≠ 0)
      then m ← px4_sem_post (sem f) m; Done (ret, d, s, m)
      else Done (ret, d, s, m)
    else Done (ret, d, s, m)
  else
    '(ret, d) ← remove_poll_waiter fds d;
    Done (ret, d, s, m).

(** ** Vocabulary of the statements *)

(** The table is the array of [_max_pollwaiters] slots, all written. *)
Definition table_ok (d : CDev) : Prop :=
  0 ≤ _max_pollwaiters d < 256
  ∧ length (_pollset d) = Z.to_nat (_max_pollwaiters d)
  ∧ Forall (λ c, c ≠ Uninit) (_pollset d).

(** [i] is the first index at which the table holds [c]. *)
Definition first_at (c : slot) (t : list slot) (i : nat) : Prop :=
  t !! i = Some c ∧ ∀ j, (j < i)%nat → t !! j ≠ Some c.

(** The waiters of the occupied slots, in slot order. *)
Definition occupant (c : slot) : option ptr :=
  match c with
  | Slot p => if decide (nullptr = p) then None else Some p
  | Uninit => None
  end.

Definition occupied (t : list slot) : list ptr := omap occupant t.

(** Whether slot content [c] is the reference [p], as a count. *)
Definition holds (p : ptr) (c : slot) : nat :=
  if decide (c = Slot p) then 1%nat else 0%nat.

(** How many slots hold [p]. *)
Definition holders (p : ptr) (t : list slot) : nat :=
  length (filter (λ c, c = Slot p) t).

(** [p] points to a mapped record whose semaphore is mapped. *)
Definition waiter_valid (m : memory) (p : ptr) : Prop :=
  ∃ f, pollfds m !! p = Some f ∧ is_Some (sems m !! sem f).

(** Every occupied slot points to such a record (the consumer keeps a
    registered record alive). *)
Definition waiters_valid (t : list slot) (m : memory) : Prop :=
  Forall (waiter_valid m) (occupied t).

(** The table after growing a full table [t] of [cap] slots for [fds]. *)
Definition grown_capacity (cap : Z) : Z := if decide (cap = 0) then 1 else 2 * cap.

Definition grown_table (t : list slot) (cap : Z) (fds : ptr) : list slot :=
  t ++ Slot fds :: replicate (Z.to_nat (grown_capacity cap - cap - 1)) (Slot nullptr).

(** The memory after a post on semaphore [p] holding [sm]. *)
Definition after_post (p : ptr) (sm : px4_sem_t) (m : memory) : memory :=
  mkMemory (pollfds m) (<[p := mkSem (semcount sm + 1)]> (sems m))
           (posted m ++ [p]).

(** Both scanning loops are this one: replace the first slot equal to
    [find] by [put]. *)
Fixpoint scan_replace (find put : ptr) (t : list slot) (i n : nat)
  : outcome (option (list slot)) :=
  match n with
  | O => Done None
  | S n =>
      p ← pollset_read t i;
      if decide (find = p)
      then t' ← pollset_write t i put; Done (Some t')
      else scan_replace find put t (S i) n
  end.

(** *** Histories of the table *)

Inductive registry_op : Type :=
  | op_add (fds : ptr) (alloc : bool)
  | op_remove (fds : ptr).

(** The device together with the references that are live: stored by an
    [add] that returned [PX4_OK] and not yet taken out by a [remove] that
    returned [PX4_OK], with multiplicity. *)
Definition registry_step (o : registry_op) (st : CDev * gmultiset ptr)
  : outcome (CDev * gmultiset ptr) :=
  match o with
  | op_add fds alloc =>
      '(ret, d) ← store_poll_waiter fds alloc st.1;
      Done (d, if decide (ret = PX4_OK) then {[+ fds +]} ⊎ st.2 else st.2)
  | op_remove fds =>
      '(ret, d) ← remove_poll_waiter fds st.1;
      Done (d, if decide (ret = PX4_OK) then st.2 ∖ {[+ fds +]} else st.2)
  end.

Fixpoint registry_run (ops : list registry_op) (st : CDev * gmultiset ptr)
  : outcome (CDev * gmultiset ptr) :=
  match ops with
  | [] => Done st
  | o :: ops => st ← registry_step o st; registry_run ops st
  end.

(** What holds of the device and the live references between operations:
    the table is fully written, and each reference sits in as many slots
    as it is live. *)
Definition registry_inv (st : CDev * gmultiset ptr) : Prop :=
  table_ok st.1
  ∧ ∀ p, p ≠ nullptr → holders p (_pollset st.1) = multiplicity p st.2.

(** ** Concrete devices and memories, for running the definitions *)

(** A driver whose [open_first] declines and whose [close_last] reports a
    failure; its [poll_state] reports event bit 0. *)
Definition declining_ops : CDevOps unit :=
  {| open_first := λ _ s, (PX4_ERROR, s);
     close_last := λ _ s, (PX4_ERROR, s);
     poll_state := λ _ s, (1, s) |}.

(** A table of two slots with one waiter, at address 1. *)
Definition one_waiter_dev : CDev :=
  mkCDev None false 1 [Slot 1%N; Slot nullptr] 2.

(** The waiter at address 1 is interested in event bit 0, has nothing
    ready and sleeps on the semaphore at address 10 (count 0). *)
Definition one_waiter_mem : memory :=
  mkMemory {[ 1%N := mkPollfd 1 0 10%N 0%N ]} {[ 10%N := mkSem 0 ]} [].

(** The same waiter with event bit 0 still marked ready. *)
Definition ready_waiter_mem : memory :=
  mkMemory {[ 1%N := mkPollfd 1 1 10%N 0%N ]} {[ 10%N := mkSem 0 ]} [].

(** A device that is marked as registered. *)
Definition registered_dev : CDev :=
  mkCDev (Some "/dev/x") true 0 [] 0.

(** Two waiters, at addresses 1 and 2, that sleep on the same semaphore
    (address 10, count 0) and have nothing ready: the first is interested
    in event bit 0, the second in event bit 2. *)
Definition two_waiter_dev : CDev :=
  mkCDev None false 1 [Slot 1%N; Slot 2%N] 2.

Definition shared_sem_mem : memory :=
  mkMemory {[ 1%N := mkPollfd 1 0 10%N 0%N; 2%N := mkPollfd 4 0 10%N 0%N ]}
           {[ 10%N := mkSem 0 ]} [].

(** ** The rest of the class *)

Definition OK : Z := 0.
Definition ENOSPC : Z := 28.
Definition ENOSYS : Z := 38.

(** [CDev::read], [CDev::write], [CDev::seek]: not implemented by the
    base class. *)
Definition read (filep : file_t_ptr) (buffer : ptr) (buflen : Z) : Z :=
  - ENOSYS.

Definition write (filep : file_t_ptr) (buffer : ptr) (buflen : Z) : Z :=
  - ENOSYS.

Definition seek (filep : file_t_ptr) (offset : Z) (whence : Z) : Z :=
  - ENOSYS.

(** [snprintf(name, sizeof(name), fmt, class_devname, class_instance)]
    into [char name[32]], where [fmt] prints the class name followed by the
    instance number in decimal ([digits]): the text, cut to the 31
    characters that fit in front of the terminator. *)
Definition snprintf_name (class_devname digits : string) : string :=
  String.substring 0 31 (class_devname +:+ digits).

Section class_devname.
(** As for [init], the namespace and its two operations are the
    platform's.  [unregister_driver] takes the pointer it is given, which
    the destructor does not check. *)
Context {NS : Type}.
Variable register_driver : string → NS → Z * NS.
Variable unregister_driver : option string → NS → Z * NS.

(** The loop of [register_class_devname], with [n] iterations to go
    until [class_instance] reaches 4.  It gives [class_instance] and
    [ret] as the loop leaves them, and the calls of [register_driver]
    with their results. *)
Fixpoint register_class_loop (class_devname : string) (class_instance : Z)
    (n : nat) (ret : Z) (ns : NS) : Z * Z * NS * list (string * Z) :=
  match n with
  | O => (class_instance, ret, ns, [])
  | S n =>
      let name := snprintf_name class_devname (pretty class_instance) in
      let '(ret, ns) := register_driver name ns in
      let this_call := (name, ret) in
      if decide (ret = OK) then (class_instance, ret, ns, [this_call])
      else
        let '(class_instance, ret, ns, log) :=
          register_class_loop class_devname (class_instance + 1) n ret ns in
        (class_instance, ret, ns, this_call :: log)
  end.

(** [CDev::register_class_devname] *)
Definition register_class_devname (class_devname : option string) (ns : NS)
  : Z * NS * list (string * Z) :=
  match class_devname with
  | None => (- EINVAL, ns, [])
  | Some class_devname =>
      let '(class_instance, ret, ns, log) :=
        register_class_loop class_devname 0 4 (- ENOSPC) ns in
      if decide (class_instance = 4) then (ret, ns, log)
      else (class_instance, ns, log)
  end.

(** [CDev::unregister_class_devname]; [class_instance] is an
    [unsigned].  Returns the result, the namespace and the name
    [unregister_driver] was called with. *)
Definition unregister_class_devname (class_devname : string)
    (class_instance : N) (ns : NS) : Z * NS * string :=
  let name := snprintf_name class_devname (pretty class_instance) in
  let '(r, ns) := unregister_driver (Some name) ns in
  (r, ns, name).

(** [CDev::~CDev]: the namespace it leaves and the pointers
    [unregister_driver] was called with.  The table and the lock go with
    the object. *)
Definition CDev_destroy (d : CDev) (ns : NS) : NS * list (option string) :=
  if _registered d
  then ((unregister_driver (_devname d) ns).2, [_devname d])
  else (ns, []).

(** [init()] called once in each of the namespace states [nss],
    whatever happened to the namespace in between: the results, oldest
    first, and the device. *)
Fixpoint init_each (nss : list NS) (d : CDev) : list Z * CDev :=
  match nss with
  | [] => ([], d)
  | ns :: nss =>
      let '(r, d, _, _) := init register_driver d ns in
      let '(rs, d) := init_each nss d in
      (r :: rs, d)
  end.
End class_devname.

(** *** Vocabulary for sessions of [open()]/[close()] *)

(** An [open()] that returned [PX4_OK]; a [close()] that found the
    device open. *)
Definition open_succeeded (st : step) : bool :=
  match step_call st with
  | call_open _ => bool_decide (step_ret st = PX4_OK)
  | call_close _ => false
  end.

Definition close_effective (st : step) : bool :=
  match step_call st with
  | call_close _ => bool_decide (0 < step_pre st)
  | call_open _ => false
  end.

(** The protocol a driver sees on its two hooks: while [opened] is off
    only [open_first] may be called, and it switches [opened] on when it
    returns [PX4_OK]; while [opened] is on only [close_last] may be
    called, and it switches [opened] off whatever it returns. *)
Fixpoint hooks_paired (opened : bool) (steps : list step) : bool :=
  match steps with
  | [] => true
  | st :: steps =>
      match step_hooks st with
      | [] => hooks_paired opened steps
      | [called_open_first _] =>
          negb opened
          && hooks_paired (bool_decide (step_ret st = PX4_OK)) steps
      | [called_close_last _] => opened && hooks_paired false steps
      | _ => false
      end
  end.

(** *** Vocabulary for the table and the notification *)

(** The capacities the table goes through. *)
Definition capacity_steps : list Z := [0; 1; 2; 4; 8; 16; 32; 64; 128].

(** A record after a notification of [evs]. *)
Definition notified (evs : Z) (f : px4_pollfd_struct_t) : px4_pollfd_struct_t :=
  set_revents f (Z.lor (revents f) (Z.land (events f) evs)).

Section notify_vocabulary.
Variable nuttx : bool.
Variable getvalue : px4_sem_t → option Z.

(** How a semaphore's count may move: never down, and where the count
    can be read, up only from 0 or below, by one. *)
Definition count_moved (a b : px4_sem_t) : Prop :=
  semcount a ≤ semcount b
  ∧ ((∀ sm, queried_count nuttx getvalue sm = Some (semcount sm)) →
     semcount b ≤ Z.max (semcount a) 1).


Definition sems_moved (m m' : memory) : Prop :=
  ∀ s, match sems m !! s, sems m' !! s with
       | Some a, Some b => count_moved a b
       | None, None => True
       | _, _ => False
       end.

(** The platform can read the count of every semaphore. *)
Definition counts_readable : Prop :=
  ∀ sm, queried_count nuttx getvalue sm = Some (semcount sm).

(** [p] points to a record whose semaphore has a count of 1 or more
    when the record has an event ready. *)
Definition woken (m : memory) (p : ptr) : Prop :=
  ∃ f sm, pollfds m !! p = Some f ∧ sems m !! sem f = Some sm
          ∧ (revents f ≠ 0 → 1 ≤ semcount sm).
End notify_vocabulary.

(** No semaphore has tasks waiting on it (a negative count). *)
Definition counts_not_negative (m : memory) : Prop :=
  ∀ s sm, sems m !! s = Some sm → 0 ≤ semcount sm.


(** The other half of the example namespace: a name that is bound is
    taken out, anything else is refused. *)
Definition ENOENT : Z := 2.

Definition names_unregister_driver (name : option string) (ns : gset string)
  : Z * gset string :=
  match name with
  | Some name =>
      if decide (name ∈ ns) then (OK, ns ∖ {[name]}) else (- ENOENT, ns)
  | None => (- EINVAL, ns)
  end.

(** A session that opens twice, closes twice and closes once more. *)
Definition two_sessions : list call :=
  [call_open 7%N; call_open 8%N; call_close 8%N; call_close 7%N;
   call_close 7%N].


(** * Properties *)


(** ** Open / close reference counting *)

Section lifecycle_facts.
Context {S : Type} {ops : CDevOps S}.
Variable bits : positive.

Lemma open_count_modulus : 2 ≤ 2 ^ Z.pos bits.
Proof.
  change 2 with (2 ^ 1) at 1.
  apply Z.pow_le_mono_r; lia.
Qed.

Lemma open_count_wrap_id c :
  open_count_ok bits c → open_count_wrap bits c = c.
Proof. intros Hc. unfold open_count_wrap. apply Z.mod_small, Hc. Qed.

Lemma open_count_wrap_ok z : open_count_ok bits (open_count_wrap bits z).
Proof.
  unfold open_count_ok, open_count_wrap.
  apply Z.mod_pos_bound. pose proof open_count_modulus. lia.
Qed.

(** The increment of a count in range gives 1 exactly from 0. *)
Lemma open_count_incr_one c :
  open_count_ok bits c → open_count_wrap bits (c + 1) = 1 ↔ c = 0.
Proof.
  intros Hc. pose proof open_count_modulus as H2.
  unfold open_count_ok, open_count_wrap in *.
  destruct (decide (c + 1 = 2 ^ Z.pos bits)) as [E|E].
  - rewrite E, Z.mod_same by lia. lia.
  - rewrite Z.mod_small by lia. lia.
Qed.

(** [open] by cases on the count it finds and on what the hook says. *)
Lemma open_unfold filep d s :
  open_count_ok bits (_open_count d) →
  open bits filep d s =
    if decide (_open_count d = 0) then
      if decide ((open_first filep s).1 = PX4_OK)
      then (PX4_OK, set_open_count d 1, (open_first filep s).2,
            [called_open_first filep])
      else ((open_first filep s).1, d, (open_first filep s).2,
            [called_open_first filep])
    else (PX4_OK,
          set_open_count d (open_count_wrap bits (_open_count d + 1)), s, []).
Proof.
  intros Hc. unfold open. cbn [_open_count set_open_count].
  pose proof (open_count_incr_one _ Hc) as Hone.
  destruct (decide (open_count_wrap bits (_open_count d + 1) = 1)) as [E|E];
    destruct (decide (_open_count d = 0)) as [E0|E0]; try tauto.
  destruct (open_first filep s) as [r s1]; cbn [fst snd].
  rewrite E. destruct (decide (r ≠ PX4_OK)), (decide (r = PX4_OK)); try tauto.
  - change (1 - 1) with 0. rewrite open_count_wrap_id by (unfold open_count_ok; pose proof open_count_modulus; lia).
    rewrite <- E0. by destruct d.
  - by subst r.
Qed.

(** [close] by cases on the count it finds. *)
Lemma close_unfold filep d s :
  open_count_ok bits (_open_count d) →
  close bits filep d s =
    if decide (_open_count d = 0) then (- EBADF, d, s, [])
    else if decide (_open_count d = 1)
    then ((close_last filep s).1, set_open_count d 0,
          (close_last filep s).2, [called_close_last filep])
    else (PX4_OK, set_open_count d (_open_count d - 1), s, []).
Proof.
  intros Hc. unfold close. unfold open_count_ok in Hc.
  destruct (decide (0 < _open_count d)), (decide (_open_count d = 0)); try lia; [|done].
  cbn [_open_count set_open_count].
  rewrite open_count_wrap_id by (unfold open_count_ok; lia).
  destruct (decide (_open_count d - 1 = 0)), (decide (_open_count d = 1)); try lia.
  - destruct (close_last filep s) as [r s1]; cbn [fst snd].
    by replace (_open_count d - 1) with 0 by lia.
  - done.
Qed.


(** C4.  [open()] increments the open count; [open_first] is called
    exactly when the increment takes the count from 0 to 1; when the hook
    fails the increment is undone, the device is as before the call and
    [open()] returns the hook's error; in every other case [open()]
    returns [PX4_OK] and the increment stays.  The hook of the base class
    changes nothing and returns [PX4_OK]. *)
Theorem open_counts_and_first_open filep d s :
  open_count_ok bits (_open_count d) →
  let c := _open_count d in
  let hook := open_first filep s in
  (c = 0 → hook.1 = PX4_OK →
     open bits filep d s
     = (PX4_OK, set_open_count d 1, hook.2, [called_open_first filep]))
  ∧ (c = 0 → hook.1 ≠ PX4_OK →
       open bits filep d s = (hook.1, d, hook.2, [called_open_first filep]))
  ∧ (c ≠ 0 →
       open bits filep d s
       = (PX4_OK, set_open_count d (open_count_wrap bits (c + 1)), s, []))
  ∧ (c + 1 < 2 ^ Z.pos bits → open_count_wrap bits (c + 1) = c + 1)
  ∧ (∀ (s0 : S), CDev_open_first filep s0 = (PX4_OK, s0))
  ∧ open (ops := CDev_base_ops S) bits filep d s
    = (PX4_OK, set_open_count d (open_count_wrap bits (c + 1)), s,
       if decide (c = 0) then [called_open_first filep] else []).
Proof.
  intros Hc c hook. subst c hook.
  rewrite open_unfold by done.
  repeat split.
  - intros E0 Eh. rewrite !decide_True by done. done.
  - intros E0 Eh. rewrite decide_True, decide_False by done. done.
  - intros E0. by rewrite decide_False.
  - intros Hlt. apply open_count_wrap_id. unfold open_count_ok in *. lia.
  - unfold open. cbn.
    pose proof (open_count_incr_one _ Hc) as Hone.
    destruct (decide (open_count_wrap bits (_open_count d + 1) = 1));
      destruct (decide (_open_count d = 0)); tauto.
Qed.

(** C5.  [close()] on a device whose open count is 0 fails with
    [-EBADF] and changes nothing; otherwise the count goes down by one,
    and exactly when it reaches 0 [close_last] is called: its result is
    the result of [close()], and the count is 0 whatever that result is.
    The hook of the base class changes nothing and returns [PX4_OK]. *)
Theorem close_counts_and_last_close filep d s :
  open_count_ok bits (_open_count d) →
  let c := _open_count d in
  let hook := close_last filep s in
  (c = 0 → close bits filep d s = (- EBADF, d, s, []))
  ∧ (c = 1 →
       close bits filep d s
       = (hook.1, set_open_count d 0, hook.2, [called_close_last filep]))
  ∧ (1 < c → close bits filep d s = (PX4_OK, set_open_count d (c - 1), s, []))
  ∧ (∀ (s0 : S), CDev_close_last filep s0 = (PX4_OK, s0)).
Proof.
  intros Hc c hook. subst c hook. rewrite close_unfold by done.
  repeat split.
  - intros E. by rewrite decide_True.
  - intros E. rewrite decide_False, decide_True by lia. done.
  - intros E. rewrite !decide_False by lia. done.
Qed.

Lemma do_call_step_ok c d s :
  open_count_ok bits (_open_count d) →
  let r := do_call bits c d s in
  step_ok bits (mkStep c (_open_count d) (_open_count r.1.1.2) r.1.1.1 r.2).
Proof.
  intros Hc. pose proof open_count_modulus as H2.
  pose proof (open_count_wrap_ok (_open_count d + 1)) as Hw.
  destruct c as [filep|filep]; cbn [do_call].
  - rewrite open_unfold by done.
    unfold step_ok, hooks_due;
      cbn [step_call step_pre step_post step_ret step_hooks].
    destruct (decide (_open_count d = 0)) as [E0|E0].
    + destruct (decide ((open_first filep s).1 = PX4_OK)) as [Eh|Eh];
        cbn [fst snd _open_count set_open_count].
      * split_and!; [done| unfold open_count_ok; lia | done |].
        left. rewrite E0. change (0 + 1) with 1.
        symmetry. apply open_count_wrap_id. unfold open_count_ok. lia.
      * split_and!; [done..|]. right. rewrite E0. done.
    + cbn [fst snd _open_count set_open_count].
      split_and!; [done..|]. by left.
  - rewrite close_unfold by done.
    unfold step_ok, hooks_due;
      cbn [step_call step_pre step_post step_ret step_hooks].
    unfold open_count_ok in *.
    destruct (decide (_open_count d = 0)) as [E0|E0];
      [|destruct (decide (_open_count d = 1)) as [E1|E1]];
      cbn [fst snd _open_count set_open_count].
    + rewrite decide_False by lia. split_and!; [lia..| done |]. left. done.
    + split_and!; [lia..| done |]. right. lia.
    + split_and!; [lia..| done |]. right. lia.
Qed.

Lemma run_steps_ok cs : ∀ d s,
  open_count_ok bits (_open_count d) →
  Forall (step_ok bits) (run bits cs d s).1.1
  ∧ open_count_ok bits (_open_count (run bits cs d s).1.2).
Proof.
  induction cs as [|c cs IH]; intros d s Hc; cbn [run].
  - by split.
  - pose proof (do_call_step_ok c d s Hc) as Hstep. cbn zeta in Hstep.
    destruct (do_call bits c d s) as [[[ret d'] s'] hooks]. cbn in Hstep.
    assert (Hc' : open_count_ok bits (_open_count d')) by apply Hstep.
    specialize (IH d' s' Hc').
    destruct (run bits cs d' s') as [[steps d''] s'']. cbn in *.
    destruct IH as [IH1 IH2]. split; [|done]. by constructor.
Qed.

Lemma run_chained cs : ∀ d s, chained (_open_count d) (run bits cs d s).1.1.
Proof.
  induction cs as [|c cs IH]; intros d s; cbn [run]; [done|].
  destruct (do_call bits c d s) as [[[ret d'] s'] hooks].
  specialize (IH d' s').
  destruct (run bits cs d' s') as [[steps d''] s'']. cbn in *. done.
Qed.

Lemma hooks_counted steps :
  Forall (step_ok bits) steps →
  length (filter (λ h, is_open_first h) (all_hooks steps))
  = length (filter (λ st, opens_from_zero st) steps)
  ∧ length (filter (λ h, is_close_last h) (all_hooks steps))
    = length (filter (λ st, closes_to_zero st) steps).
Proof.
  induction 1 as [|st steps Hst _ IH]; [done|].
  destruct IH as [IH1 IH2].
  unfold all_hooks in *. cbn [map concat].
  rewrite !filter_app, !length_app, IH1, IH2.
  destruct Hst as (Hpre & Hpost & Hhooks & Hcount).
  rewrite Hhooks. rewrite !filter_cons.
  unfold opens_from_zero, closes_to_zero, hooks_due.
  destruct (step_call st) as [filep|filep].
  - destruct (decide (step_pre st = 0)) as [E|E].
    + rewrite (bool_decide_eq_true_2 _ E). cbn. done.
    + rewrite (bool_decide_eq_false_2 _ E). cbn. done.
  - destruct (decide (step_pre st = 1)) as [E|E].
    + rewrite bool_decide_eq_true_2 by lia. cbn. done.
    + rewrite bool_decide_eq_false_2 by lia. cbn. done.
Qed.

(** C6.  In every sequence of [open()]/[close()] calls that starts with
    the open count at 0, the count is never negative (a decrement happens
    only at a positive count), [open_first] is called exactly by the
    [open()] calls that find the count at 0 and [close_last] exactly by the
    [close()] calls that find it at 1 and bring it to 0, once each, and no
    other call calls a hook. *)
Theorem hooks_fire_once_per_transition cs d s :
  _open_count d = 0 →
  let steps := (run bits cs d s).1.1 in
  Forall (step_ok bits) steps
  ∧ chained 0 steps
  ∧ 0 ≤ _open_count (run bits cs d s).1.2
  ∧ length (filter (λ h, is_open_first h) (all_hooks steps))
    = length (filter (λ st, opens_from_zero st) steps)
  ∧ length (filter (λ h, is_close_last h) (all_hooks steps))
    = length (filter (λ st, closes_to_zero st) steps).
Proof.
  intros E0 steps.
  assert (Hc : open_count_ok bits (_open_count d)).
  { rewrite E0. pose proof open_count_modulus. unfold open_count_ok. lia. }
  destruct (run_steps_ok cs d s Hc) as [Hsteps Hfin].
  split; [|split; [|split]].
  - done.
  - rewrite <- E0. apply run_chained.
  - unfold open_count_ok in Hfin. lia.
  - by apply hooks_counted.
Qed.

End lifecycle_facts.

(** ** The poll-waiter table *)

Section registry_facts.
Implicit Types (t : list slot) (d : CDev) (fds p : ptr) (i j k n : nat).

Lemma slot_written t c :
  Forall (λ c, c ≠ Uninit) t → c ∈ t → ∃ p, c = Slot p.
Proof.
  intros Hall Hin. rewrite Forall_forall in Hall.
  specialize (Hall c Hin). destruct c; [done|eauto].
Qed.

Lemma lookup_written t i :
  Forall (λ c, c ≠ Uninit) t → (i < length t)%nat →
  ∃ p, t !! i = Some (Slot p).
Proof.
  intros Hall Hi. destruct (lookup_lt_is_Some_2 t i Hi) as [c Hc].
  destruct (slot_written t c Hall) as [p ->]; [|eauto].
  by eapply list_elem_of_lookup_2.
Qed.

Lemma pollset_read_slot t i p :
  t !! i = Some (Slot p) → pollset_read t i = Done p.
Proof. intros H. unfold pollset_read. by rewrite H. Qed.

Lemma pollset_write_lt t i p :
  (i < length t)%nat → pollset_write t i p = Done (<[i := Slot p]> t).
Proof. intros H. unfold pollset_write. by rewrite decide_True. Qed.

Lemma store_scan_is_scan fds t n : ∀ i,
  store_scan fds t i n = scan_replace nullptr fds t i n.
Proof.
  induction n as [|n IH]; intros i; cbn; [done|].
  destruct (pollset_read t i); cbn; [|done]. by rewrite IH.
Qed.

Lemma remove_scan_is_scan fds t n : ∀ i,
  remove_scan fds t i n = scan_replace fds nullptr t i n.
Proof.
  induction n as [|n IH]; intros i; cbn; [done|].
  destruct (pollset_read t i); cbn; [|done]. by rewrite IH.
Qed.

(** The scan stops at the first slot that holds [find]. *)
Lemma scan_replace_found find put t k n : ∀ i,
  Forall (λ c, c ≠ Uninit) t →
  (i + n = length t)%nat → (i ≤ k)%nat →
  t !! k = Some (Slot find) →
  (∀ j, (i ≤ j < k)%nat → t !! j ≠ Some (Slot find)) →
  scan_replace find put t i n = Done (Some (<[k := Slot put]> t)).
Proof.
  induction n as [|n IH]; intros i Hall Hlen Hik Hk Hbefore.
  - apply lookup_lt_Some in Hk. lia.
  - cbn [scan_replace].
    destruct (lookup_written t i Hall) as [q Hq]; [lia|].
    rewrite (pollset_read_slot _ _ _ Hq). cbn.
    destruct (decide (find = q)) as [->|Hne].
    + destruct (decide (i = k)) as [->|Hik'].
      * rewrite pollset_write_lt by lia. done.
      * exfalso. apply (Hbefore i); [lia|done].
    + assert (i ≠ k) by (intros ->; congruence).
      apply IH; [done|lia|lia|done|].
      intros j Hj. apply Hbefore. lia.
Qed.

(** The scan falls through when no slot holds [find]. *)
Lemma scan_replace_none find put t n : ∀ i,
  Forall (λ c, c ≠ Uninit) t →
  (i + n = length t)%nat →
  Slot find ∉ t →
  scan_replace find put t i n = Done None.
Proof.
  induction n as [|n IH]; intros i Hall Hlen Hnot; [done|].
  cbn [scan_replace].
  destruct (lookup_written t i Hall) as [q Hq]; [lia|].
  rewrite (pollset_read_slot _ _ _ Hq). cbn.
  destruct (decide (find = q)) as [->|Hne].
  - exfalso. apply Hnot. by eapply list_elem_of_lookup_2.
  - apply IH; [done|lia|done].
Qed.

Lemma first_at_or_absent (c : slot) t : (∃ i, first_at c t i) ∨ c ∉ t.
Proof.
  induction t as [|x t IH].
  - right. apply not_elem_of_nil.
  - destruct (decide (x = c)) as [->|Hne].
    + left. exists 0%nat. split; [done|]. intros j Hj. lia.
    + destruct IH as [[i [Hi Hbefore]]|Hnot].
      * left. exists (Datatypes.S i). split; [done|].
        intros [|j] Hj; cbn; [congruence|]. apply Hbefore. lia.
      * right. rewrite not_elem_of_cons. done.
Qed.

Lemma first_at_scan find put t i :
  Forall (λ c, c ≠ Uninit) t →
  first_at (Slot find) t i →
  scan_replace find put t 0 (length t) = Done (Some (<[i := Slot put]> t)).
Proof.
  intros Hall [Hi Hbefore].
  apply scan_replace_found; [done|lia|lia|done|].
  intros j Hj. apply Hbefore. lia.
Qed.

(** *** [store_poll_waiter] *)

Lemma store_poll_waiter_free fds alloc d i :
  table_ok d → first_at (Slot nullptr) (_pollset d) i →
  store_poll_waiter fds alloc d
  = Done (PX4_OK, set_pollset d (<[i := Slot fds]> (_pollset d))).
Proof.
  intros (Hcap & Hlen & Hall) Hi. unfold store_poll_waiter.
  rewrite store_scan_is_scan, <- Hlen.
  by rewrite (first_at_scan _ _ _ i).
Qed.

Lemma store_poll_waiter_full fds alloc d :
  table_ok d → Slot nullptr ∉ _pollset d →
  store_poll_waiter fds alloc d
  = if decide (128 ≤ _max_pollwaiters d) then Done (- ENOMEM, d)
    else if alloc
    then Done (PX4_OK,
               mkCDev (_devname d) (_registered d) (_open_count d)
                 (grown_table (_pollset d) (_max_pollwaiters d) fds)
                 (grown_capacity (_max_pollwaiters d)))
    else Done (- ENOMEM, d).
Proof.
  intros (Hcap & Hlen & Hall) Hfull. unfold store_poll_waiter.
  rewrite store_scan_is_scan, <- Hlen.
  rewrite scan_replace_none by done. cbn.
  change (256 / 2) with 128.
  destruct (decide (128 ≤ _max_pollwaiters d)) as [Hmax|Hmax]; [done|].
  destruct alloc; [|done].
  unfold grown_table, grown_capacity, uint8.
  destruct (decide (0 < _max_pollwaiters d)) as [Hpos|Hzero].
  - rewrite decide_False by lia.
    rewrite Z.mod_small by lia.
    set (cap := _max_pollwaiters d) in *.
    unfold memset_null. rewrite length_replicate.
    rewrite decide_True by lia. cbn.
    unfold memcpy_slots.
    rewrite !length_app, !length_replicate, length_take, length_drop,
      length_replicate.
    rewrite decide_True by lia. cbn.
    rewrite Hlen, firstn_all2 by lia.
    rewrite drop_app_length' by (rewrite length_take, length_replicate; lia).
    rewrite drop_replicate.
    replace (Z.to_nat (cap * 2) - (Z.to_nat cap + Z.to_nat (cap * 2 - cap)))%nat
      with 0%nat by lia.
    cbn [replicate]. rewrite app_nil_r.
    unfold pollset_write. rewrite length_app, length_replicate.
    rewrite decide_True by lia. cbn.
    replace (Z.to_nat cap) with (length (_pollset d) + 0)%nat at 1 by lia.
    rewrite insert_app_r.
    replace (Z.to_nat (cap * 2 - cap)) with (Datatypes.S (Z.to_nat (2 * cap - cap - 1))) by lia.
    cbn. replace (cap * 2) with (2 * cap) by lia. by destruct d.
  - assert (_max_pollwaiters d = 0) as E0 by lia.
    rewrite decide_True by done. rewrite E0 in *.
    destruct (_pollset d) as [|c t] eqn:Et; [|done].
    cbn. destruct d; cbn in *. by subst.
Qed.

(** The table after growth: it has the new capacity, the old slots are
    where they were, the first new slot holds [fds] and the other new
    slots are empty. *)
Lemma grown_table_layout t cap fds :
  0 ≤ cap → length t = Z.to_nat cap →
  length (grown_table t cap fds) = Z.to_nat (grown_capacity cap)
  ∧ (∀ i, (i < Z.to_nat cap)%nat → grown_table t cap fds !! i = t !! i)
  ∧ grown_table t cap fds !! Z.to_nat cap = Some (Slot fds)
  ∧ (∀ i, (Z.to_nat cap < i < Z.to_nat (grown_capacity cap))%nat →
       grown_table t cap fds !! i = Some (Slot nullptr)).
Proof.
  intros Hcap Hlen. unfold grown_table.
  assert (Hg : grown_capacity cap - cap - 1 = (if decide (cap = 0) then 0 else cap - 1)).
  { unfold grown_capacity. case_decide; lia. }
  split_and!.
  - rewrite length_app, length_cons, length_replicate, Hlen.
    unfold grown_capacity in *. case_decide; lia.
  - intros i Hi. rewrite lookup_app_l by lia. done.
  - rewrite <- Hlen. by rewrite list_lookup_middle.
  - intros i Hi. rewrite lookup_app_r by lia.
    rewrite Hlen.
    destruct (i - Z.to_nat cap)%nat as [|k] eqn:Ek; [lia|].
    cbn. apply lookup_replicate_2.
    unfold grown_capacity in *. case_decide; lia.
Qed.

(** *** [remove_poll_waiter] *)

Lemma remove_poll_waiter_found fds d i :
  table_ok d → first_at (Slot fds) (_pollset d) i →
  remove_poll_waiter fds d
  = Done (PX4_OK, set_pollset d (<[i := Slot nullptr]> (_pollset d))).
Proof.
  intros (Hcap & Hlen & Hall) Hi. unfold remove_poll_waiter.
  rewrite remove_scan_is_scan, <- Hlen.
  by rewrite (first_at_scan _ _ _ i).
Qed.

Lemma remove_poll_waiter_absent fds d :
  table_ok d → Slot fds ∉ _pollset d →
  remove_poll_waiter fds d = Done (- EINVAL, d).
Proof.
  intros (Hcap & Hlen & Hall) Hnot. unfold remove_poll_waiter.
  rewrite remove_scan_is_scan, <- Hlen.
  by rewrite scan_replace_none.
Qed.

End registry_facts.

(** ** Histories of the poll-waiter table *)

(** Running a bind whose first computation is already a [Done] or a
    [Fault]. *)
Ltac step_bind := unfold mbind, outcome_bind; cbv beta iota.

Section registry_history.
Implicit Types (t : list slot) (d : CDev) (fds p : ptr) (i j k n : nat).

Lemma holders_cons p c t :
  holders p (c :: t) = (holds p c + holders p t)%nat.
Proof.
  unfold holders, holds. rewrite filter_cons.
  destruct (decide (c = Slot p)); done.
Qed.

Lemma holders_app p t1 t2 :
  holders p (t1 ++ t2) = (holders p t1 + holders p t2)%nat.
Proof. unfold holders. by rewrite filter_app, length_app. Qed.

Lemma holders_replicate_other p c n :
  c ≠ Slot p → holders p (replicate n c) = 0%nat.
Proof.
  intros Hne. induction n as [|n IH]; [done|].
  cbn [replicate]. rewrite holders_cons, IH. unfold holds.
  by rewrite decide_False.
Qed.

(** Overwriting slot [i], which held [c], by [c']. *)
Lemma holders_insert p t i c c' :
  t !! i = Some c →
  (holders p (<[i := c']> t) + holds p c = holders p t + holds p c')%nat.
Proof.
  intros Hi. pose proof (lookup_lt_Some _ _ _ Hi) as Hlt.
  rewrite insert_take_drop by done.
  rewrite <- (take_drop_middle t i c Hi) at 3.
  rewrite !holders_app, !holders_cons. lia.
Qed.

Lemma holders_lookup p t i : t !! i = Some (Slot p) → (0 < holders p t)%nat.
Proof.
  intros Hi. rewrite <- (take_drop_middle t i _ Hi).
  rewrite holders_app, holders_cons. unfold holds.
  rewrite decide_True by done. lia.
Qed.

Lemma table_ok_insert d i p :
  table_ok d → table_ok (set_pollset d (<[i := Slot p]> (_pollset d))).
Proof.
  intros (Hcap & Hlen & Hall). unfold table_ok. cbn.
  rewrite length_insert. split_and!; try done; try lia.
  by apply Forall_insert.
Qed.

Lemma table_ok_grown d fds :
  table_ok d → _max_pollwaiters d < 128 →
  table_ok (mkCDev (_devname d) (_registered d) (_open_count d)
              (grown_table (_pollset d) (_max_pollwaiters d) fds)
              (grown_capacity (_max_pollwaiters d))).
Proof.
  intros (Hcap & Hlen & Hall) Hmax. unfold table_ok. cbn.
  destruct (grown_table_layout (_pollset d) (_max_pollwaiters d) fds)
    as (Hl & _); [lia|done|].
  split_and!; try done.
  - unfold grown_capacity. case_decide; lia.
  - unfold grown_capacity. case_decide; lia.
  - unfold grown_table. apply Forall_app. split; [done|].
    constructor; [done|]. apply Forall_replicate. done.
Qed.

Lemma multiplicity_add_one p fds (live : gmultiset ptr) :
  multiplicity p ({[+ fds +]} ⊎ live)
  = (holds p (Slot fds) + multiplicity p live)%nat.
Proof.
  rewrite multiplicity_disj_union, multiplicity_singleton. unfold holds.
  destruct (decide (p = fds)) as [->|Hne].
  - by rewrite decide_True.
  - rewrite decide_False; [done|]. congruence.
Qed.

Lemma multiplicity_drop_one p fds (live : gmultiset ptr) :
  multiplicity p (live ∖ {[+ fds +]})
  = (multiplicity p live - holds p (Slot fds))%nat.
Proof.
  rewrite multiplicity_difference, multiplicity_singleton. unfold holds.
  destruct (decide (p = fds)) as [->|Hne].
  - by rewrite decide_True.
  - rewrite decide_False; [done|]. congruence.
Qed.

(** Every operation runs to completion on a table that is fully
    written, and leaves one that is. *)
Lemma registry_step_inv o st :
  registry_inv st → ∃ st', registry_step o st = Done st' ∧ registry_inv st'.
Proof.
  destruct st as [d live]. intros [Hok Hlive]. cbn [fst snd] in Hok, Hlive.
  destruct o as [fds alloc|fds]; cbn [registry_step fst snd].
  - destruct (first_at_or_absent (Slot nullptr) (_pollset d)) as [[i Hi]|Hfull].
    + rewrite (store_poll_waiter_free _ _ _ i) by done. step_bind.
      rewrite decide_True by done.
      eexists. split; [done|]. split; cbn [fst snd _pollset set_pollset].
      * by apply table_ok_insert.
      * intros p Hp. rewrite multiplicity_add_one, <- Hlive by done.
        pose proof (holders_insert p _ i _ (Slot fds) (proj1 Hi)) as H.
        unfold holds in H at 1. rewrite decide_False in H; [lia|].
        intros [= E]. done.
    + rewrite store_poll_waiter_full by done.
      destruct (decide (128 ≤ _max_pollwaiters d)) as [Hmax|Hmax];
        [|destruct alloc]; step_bind.
      * rewrite decide_False by done.
        eexists. split; [done|]. by split.
      * rewrite decide_True by done.
        eexists. split; [done|]. split; cbn [fst snd _pollset].
        -- apply table_ok_grown; [done|lia].
        -- intros p Hp. rewrite multiplicity_add_one, <- Hlive by done.
           unfold grown_table. rewrite holders_app, holders_cons.
           rewrite holders_replicate_other; [lia|].
           intros [= E]. done.
      * rewrite decide_False by done.
        eexists. split; [done|]. by split.
  - destruct (first_at_or_absent (Slot fds) (_pollset d)) as [[i Hi]|Hnot].
    + rewrite (remove_poll_waiter_found _ _ i) by done. step_bind.
      rewrite decide_True by done.
      eexists. split; [done|]. split; cbn [fst snd _pollset set_pollset].
      * by apply table_ok_insert.
      * intros p Hp. rewrite multiplicity_drop_one, <- Hlive by done.
        pose proof (holders_insert p _ i _ (Slot nullptr) (proj1 Hi)) as H.
        unfold holds in H at 2. rewrite decide_False in H; [lia|].
        intros [= E]. done.
    + rewrite remove_poll_waiter_absent by done. step_bind.
      rewrite decide_False by done.
      eexists. split; [done|]. by split.
Qed.

Lemma registry_run_inv ops : ∀ st,
  registry_inv st → ∃ st', registry_run ops st = Done st' ∧ registry_inv st'.
Proof.
  induction ops as [|o ops IH]; intros st Hst; cbn [registry_run].
  - eauto.
  - destruct (registry_step_inv o st Hst) as (st1 & -> & Hst1). step_bind.
    by apply IH.
Qed.

Lemma registry_inv_new devname : registry_inv (CDev_new devname, ∅).
Proof.
  split; cbn.
  - unfold table_ok. cbn. split_and!; [lia|lia|done|constructor].
  - intros p _. by rewrite multiplicity_empty.
Qed.

End registry_history.

(** ** Notification *)

Section notify_facts.
Variable nuttx : bool.
Variable getvalue : px4_sem_t → option Z.
Implicit Types (t : list slot) (d : CDev) (p q : ptr) (m : memory)
  (f : px4_pollfd_struct_t) (sm : px4_sem_t) (evs : Z) (i n : nat).

Lemma sem_value_asleep sm :
  sem_value nuttx getvalue sm ≤ 0 ↔ seems_asleep nuttx getvalue sm.
Proof.
  unfold sem_value, seems_asleep, queried_count.
  destruct nuttx; [done|]. destruct (getvalue sm); [done|]. lia.
Qed.

Lemma px4_sem_post_mapped p sm m :
  sems m !! p = Some sm → px4_sem_post p m = Done (after_post p sm m).
Proof. intros H. unfold px4_sem_post, load_sem. by rewrite H. Qed.

Lemma set_revents_same f : set_revents f (revents f) = f.
Proof. by destruct f. Qed.

Lemma store_pollfd_same m p f : pollfds m !! p = Some f → store_pollfd m p f = m.
Proof.
  intros H. unfold store_pollfd. rewrite insert_id by done. by destruct m.
Qed.

(** One visit, on a mapped record with a mapped semaphore. *)
Lemma poll_notify_one_mapped p evs m f sm :
  pollfds m !! p = Some f → sems m !! sem f = Some sm →
  poll_notify_one nuttx getvalue p evs m
  = Done (let r := Z.lor (revents f) (Z.land (events f) evs) in
          let m1 := store_pollfd m p (set_revents f r) in
          if decide (r ≠ 0 ∧ seems_asleep nuttx getvalue sm)
          then after_post (sem f) sm m1 else m1).
Proof.
  intros Hf Hsm. unfold poll_notify_one, load_pollfd, load_sem.
  rewrite Hf. step_bind. rewrite Hsm. step_bind. cbv zeta.
  cbn [revents set_revents sem].
  pose proof (sem_value_asleep sm) as Hiff.
  destruct (decide (Z.lor (revents f) (Z.land (events f) evs) ≠ 0
                    ∧ sem_value nuttx getvalue sm ≤ 0)) as [Ha|Ha];
    destruct (decide (Z.lor (revents f) (Z.land (events f) evs) ≠ 0
                      ∧ seems_asleep nuttx getvalue sm)) as [Hb|Hb];
    try tauto.
  by apply px4_sem_post_mapped.
Qed.

(** A visit can only go wrong on a pointer that is not mapped. *)
Lemma poll_notify_one_fault p evs m e :
  poll_notify_one nuttx getvalue p evs m = Fault e → e = InvalidPointer.
Proof.
  unfold poll_notify_one, load_pollfd, load_sem.
  destruct (pollfds m !! p) as [f|]; step_bind; [|congruence].
  destruct (sems m !! sem f) as [sm|] eqn:Hsm; step_bind; [|congruence].
  cbv zeta. case_decide; [|done].
  rewrite (px4_sem_post_mapped _ sm); [done|]. done.
Qed.

Lemma occupied_cons_slot q t :
  occupied (Slot q :: t)
  = if decide (nullptr = q) then occupied t else q :: occupied t.
Proof. unfold occupied. cbn. by destruct (decide (nullptr = q)). Qed.

(** The loop visits the occupied slots from index [i] on, in order. *)
Lemma notify_loop_visits t evs n : ∀ i m,
  Forall (λ c, c ≠ Uninit) t → (i + n = length t)%nat →
  notify_loop nuttx getvalue t evs i n m
  = visit_each nuttx getvalue (occupied (drop i t)) evs m.
Proof.
  induction n as [|n IH]; intros i m Hall Hlen; cbn [notify_loop].
  - rewrite drop_ge by lia. done.
  - destruct (lookup_written t i Hall) as [q Hq]; [lia|].
    rewrite (pollset_read_slot _ _ _ Hq). step_bind.
    rewrite (drop_S _ _ _ Hq), occupied_cons_slot.
    destruct (decide (nullptr = q)) as [E|E].
    + rewrite decide_False by (intros H; by apply H).
      apply IH; [done|lia].
    + rewrite decide_True by done. cbn [visit_each].
      destruct (poll_notify_one nuttx getvalue q evs m); step_bind; [|done].
      apply IH; [done|lia].
Qed.

Lemma poll_notify_visits evs d m :
  table_ok d →
  poll_notify nuttx getvalue evs d m
  = visit_each nuttx getvalue (occupied (_pollset d)) evs m.
Proof.
  intros (Hcap & Hlen & Hall). unfold poll_notify.
  rewrite notify_loop_visits; [done|done|lia].
Qed.

Lemma visit_each_fault ps evs : ∀ m e,
  visit_each nuttx getvalue ps evs m = Fault e → e = InvalidPointer.
Proof.
  induction ps as [|p ps IH]; intros m e; cbn [visit_each]; [done|].
  destruct (poll_notify_one nuttx getvalue p evs m) as [m1|e1] eqn:E1;
    step_bind.
  - apply IH.
  - intros [= <-]. by eapply poll_notify_one_fault.
Qed.

(** A visit keeps mapped what was mapped, and leaves each record its
    semaphore. *)
Lemma poll_notify_one_valid p q evs m m' :
  poll_notify_one nuttx getvalue p evs m = Done m' →
  waiter_valid m q → waiter_valid m' q.
Proof.
  intros Hrun (fq & Hfq & Hsq).
  destruct (pollfds m !! p) as [f|] eqn:Hf;
    [|unfold poll_notify_one, load_pollfd in Hrun; by rewrite Hf in Hrun].
  destruct (sems m !! sem f) as [sm|] eqn:Hsm;
    [|unfold poll_notify_one, load_pollfd, load_sem in Hrun;
      rewrite Hf in Hrun; revert Hrun; step_bind; by rewrite Hsm].
  rewrite (poll_notify_one_mapped _ _ _ f sm) in Hrun by done.
  injection Hrun as <-. cbv zeta.
  assert (Hrec : ∃ fq', <[p := set_revents f
                             (Z.lor (revents f) (Z.land (events f) evs))]>
                          (pollfds m) !! q = Some fq' ∧ sem fq' = sem fq).
  { destruct (decide (p = q)) as [->|Hne].
    - rewrite lookup_insert_eq. eexists. split; [done|]. cbn. congruence.
    - rewrite lookup_insert_ne by done. eauto. }
  destruct Hrec as (fq' & Hfq' & Hsem).
  exists fq'. rewrite Hsem. case_decide; cbn; (split; [done|]); [|done].
  destruct (decide (sem f = sem fq)) as [->|Hne].
  - by rewrite lookup_insert_eq.
  - by rewrite lookup_insert_ne.
Qed.

(** With every visited record valid, the visits run to completion. *)
Lemma visit_each_total ps evs : ∀ m,
  Forall (waiter_valid m) ps →
  ∃ m', visit_each nuttx getvalue ps evs m = Done m'.
Proof.
  induction ps as [|p ps IH]; intros m Hval; cbn [visit_each]; [eauto|].
  apply Forall_cons in Hval as [(f & Hf & sm & Hsm) Hrest].
  pose proof (poll_notify_one_mapped p evs m f sm Hf Hsm) as Hone.
  rewrite Hone. step_bind. apply IH.
  eapply Forall_impl; [exact Hrest|].
  intros q Hq. eapply poll_notify_one_valid; [exact Hone|done].
Qed.

(** A visit leaves every record alone whose interest does not meet the
    events, its own included. *)
Lemma poll_notify_one_keeps q evs m m' p f :
  poll_notify_one nuttx getvalue q evs m = Done m' →
  pollfds m !! p = Some f → Z.land (events f) evs = 0 →
  pollfds m' !! p = Some f.
Proof.
  intros Hrun Hp Hdisj.
  destruct (pollfds m !! q) as [fq|] eqn:Hf;
    [|unfold poll_notify_one, load_pollfd in Hrun; by rewrite Hf in Hrun].
  destruct (sems m !! sem fq) as [sm|] eqn:Hsm;
    [|unfold poll_notify_one, load_pollfd, load_sem in Hrun;
      rewrite Hf in Hrun; revert Hrun; step_bind; by rewrite Hsm].
  rewrite (poll_notify_one_mapped _ _ _ fq sm) in Hrun by done.
  injection Hrun as <-. cbv zeta.
  assert (<[q := set_revents fq
                   (Z.lor (revents fq) (Z.land (events fq) evs))]>
            (pollfds m) !! p = Some f) as Hkeep.
  { destruct (decide (q = p)) as [->|Hne].
    - rewrite lookup_insert_eq. replace fq with f by congruence.
      rewrite Hdisj, Z.lor_0_r. by rewrite set_revents_same.
    - by rewrite lookup_insert_ne. }
  by case_decide.
Qed.

Lemma visit_each_keeps ps evs p f : ∀ m m',
  visit_each nuttx getvalue ps evs m = Done m' →
  pollfds m !! p = Some f → Z.land (events f) evs = 0 →
  pollfds m' !! p = Some f.
Proof.
  induction ps as [|q ps IH]; intros m m'; cbn [visit_each].
  - by intros [= <-].
  - destruct (poll_notify_one nuttx getvalue q evs m) as [m1|e] eqn:E1;
      step_bind; [|done].
    intros Hrun Hp Hdisj. eapply IH; [exact Hrun| |done].
    by eapply poll_notify_one_keeps.
Qed.

End notify_facts.

(** ** The claims about the table and the notification path *)

Section registry_claims.
Implicit Types (t : list slot) (d : CDev) (fds p : ptr) (i j : nat).

Lemma store_poll_waiter_total fds alloc d :
  table_ok d → ∃ ret d', store_poll_waiter fds alloc d = Done (ret, d').
Proof.
  intros Hok.
  destruct (first_at_or_absent (Slot nullptr) (_pollset d)) as [[i Hi]|Hfull].
  - rewrite (store_poll_waiter_free _ _ _ i) by done. eauto.
  - rewrite store_poll_waiter_full by done.
    case_decide; [eauto|]. destruct alloc; eauto.
Qed.

(** C3, amended.  [store_poll_waiter(fds)] on a fully written table: if
    some slot is empty, [fds] goes into the first empty slot and [PX4_OK]
    is returned, capacity and all other slots unchanged; if no slot is
    empty and the capacity has reached 128, or the allocation of the
    larger table fails, [-ENOMEM] is returned and nothing changes;
    otherwise the capacity doubles (1 from 0), the old slots keep their
    contents at their indices, the first new slot (index = old capacity)
    holds [fds], the other new slots are empty, and [PX4_OK] is
    returned. *)
Theorem store_poll_waiter_first_free_or_grow fds alloc d :
  table_ok d →
  let t := _pollset d in
  let cap := _max_pollwaiters d in
  (∀ i, first_at (Slot nullptr) t i →
     store_poll_waiter fds alloc d
     = Done (PX4_OK, set_pollset d (<[i := Slot fds]> t))
     ∧ length (<[i := Slot fds]> t) = length t
     ∧ <[i := Slot fds]> t !! i = Some (Slot fds)
     ∧ ∀ j, j ≠ i → <[i := Slot fds]> t !! j = t !! j)
  ∧ (Slot nullptr ∉ t → 128 ≤ cap ∨ alloc = false →
       store_poll_waiter fds alloc d = Done (- ENOMEM, d))
  ∧ (Slot nullptr ∉ t → cap < 128 → alloc = true →
       let t' := grown_table t cap fds in
       let cap' := grown_capacity cap in
       store_poll_waiter fds alloc d
       = Done (PX4_OK,
               mkCDev (_devname d) (_registered d) (_open_count d) t' cap')
       ∧ cap' = (if decide (cap = 0) then 1 else 2 * cap)
       ∧ length t' = Z.to_nat cap'
       ∧ (∀ i, (i < Z.to_nat cap)%nat → t' !! i = t !! i)
       ∧ t' !! Z.to_nat cap = Some (Slot fds)
       ∧ (∀ i, (Z.to_nat cap < i < Z.to_nat cap')%nat →
            t' !! i = Some (Slot nullptr))).
Proof.
  intros Hok t cap. subst t cap. split_and!.
  - intros i Hi. split_and!.
    + by apply store_poll_waiter_free.
    + apply length_insert.
    + apply list_lookup_insert_eq. eapply lookup_lt_Some, Hi.
    + intros j Hj. by apply list_lookup_insert_ne.
  - intros Hfull Hwhy. rewrite store_poll_waiter_full by done.
    destruct Hwhy as [Hmax| ->].
    + by rewrite decide_True.
    + by case_decide.
  - intros Hfull Hmax ->. cbv zeta.
    rewrite store_poll_waiter_full by done.
    rewrite decide_False by lia.
    destruct Hok as (Hcap & Hlen & Hall).
    destruct (grown_table_layout (_pollset d) (_max_pollwaiters d) fds)
      as (H1 & H2 & H3 & H4); [lia|done|].
    split_and!; done.
Qed.

(** C7.  [remove_poll_waiter(fds)] on a fully written table: if some slot
    holds [fds], the first such slot is cleared and [PX4_OK] is returned,
    capacity and all other slots unchanged; if no slot holds [fds],
    [-EINVAL] is returned and the device is unchanged. *)
Theorem remove_poll_waiter_first_match_or_error fds d :
  table_ok d →
  let t := _pollset d in
  (∀ i, first_at (Slot fds) t i →
     remove_poll_waiter fds d
     = Done (PX4_OK, set_pollset d (<[i := Slot nullptr]> t))
     ∧ length (<[i := Slot nullptr]> t) = length t
     ∧ <[i := Slot nullptr]> t !! i = Some (Slot nullptr)
     ∧ ∀ j, j ≠ i → <[i := Slot nullptr]> t !! j = t !! j)
  ∧ (Slot fds ∉ t → remove_poll_waiter fds d = Done (- EINVAL, d)).
Proof.
  intros Hok t. subst t. split.
  - intros i Hi. split_and!.
    + by apply remove_poll_waiter_found.
    + apply length_insert.
    + apply list_lookup_insert_eq. eapply lookup_lt_Some, Hi.
    + intros j Hj. by apply list_lookup_insert_ne.
  - by apply remove_poll_waiter_absent.
Qed.

(** C10.  After any sequence of [store_poll_waiter] / [remove_poll_waiter]
    calls on a new device, every call having run to completion, the
    table has exactly [_max_pollwaiters] slots, each of them written:
    it holds [nullptr] or a reference that is live (stored by a
    successful add and not since removed), each reference in as many
    slots as it is live; so [poll_notify] never reads a slot that was
    not written, nor one outside the table. *)
Theorem pollset_slots_always_written ops devname :
  ∃ d live,
    registry_run ops (CDev_new devname, ∅) = Done (d, live)
    ∧ table_ok d
    ∧ (∀ i, (i < Z.to_nat (_max_pollwaiters d))%nat →
         ∃ p, _pollset d !! i = Some (Slot p) ∧ (p = nullptr ∨ p ∈ live))
    ∧ (∀ p, p ≠ nullptr → holders p (_pollset d) = multiplicity p live)
    ∧ (∀ nuttx getvalue evs m e,
         poll_notify nuttx getvalue evs d m = Fault e → e = InvalidPointer)
    ∧ (∀ nuttx getvalue evs m,
         waiters_valid (_pollset d) m →
         ∃ m', poll_notify nuttx getvalue evs d m = Done m').
Proof.
  destruct (registry_run_inv ops _ (registry_inv_new devname))
    as ([d live] & Hrun & Hok & Hlive).
  cbn [fst snd] in Hok, Hlive.
  exists d, live. split_and!; [done|done| | done | |].
  - intros i Hi. destruct Hok as (Hcap & Hlen & Hall).
    destruct (lookup_written (_pollset d) i Hall) as [p Hp]; [lia|].
    exists p. split; [done|].
    destruct (decide (p = nullptr)) as [|Hne]; [by left|right].
    apply elem_of_multiplicity. rewrite <- Hlive by done.
    by eapply holders_lookup.
  - intros nuttx getvalue evs m e. rewrite poll_notify_visits by done.
    apply visit_each_fault.
  - intros nuttx getvalue evs m Hval. rewrite poll_notify_visits by done.
    by apply visit_each_total.
Qed.

End registry_claims.

(** ** The statements at concrete inputs *)

Lemma open_counts_and_first_open_witness :
  open_count_ok 16 (_open_count (CDev_new None))
  ∧ open (ops := declining_ops) 16 7%N (CDev_new None) tt
    = (PX4_ERROR, CDev_new None, tt, [called_open_first 7%N]).
Proof.
  assert (H : open_count_ok 16 (_open_count (CDev_new None))).
  { unfold open_count_ok. simpl. lia. }
  split; [exact H|].
  apply (open_counts_and_first_open (ops := declining_ops)
           16 7%N (CDev_new None) tt H).
  - reflexivity.
  - discriminate.
Defined.

Lemma close_counts_and_last_close_witness :
  open_count_ok 16 (_open_count one_waiter_dev)
  ∧ close (ops := declining_ops) 16 7%N one_waiter_dev tt
    = (PX4_ERROR, set_open_count one_waiter_dev 0, tt, [called_close_last 7%N]).
Proof.
  assert (H : open_count_ok 16 (_open_count one_waiter_dev)).
  { unfold open_count_ok. simpl. lia. }
  split; [exact H|].
  apply (close_counts_and_last_close (ops := declining_ops)
           16 7%N one_waiter_dev tt H).
  reflexivity.
Defined.

Lemma hooks_fire_once_per_transition_witness :
  _open_count (CDev_new None) = 0
  ∧ Forall (step_ok 16)
      (run (ops := CDev_base_ops unit) 16
         [call_open 7%N; call_open 8%N; call_close 8%N; call_close 7%N;
          call_close 7%N]
         (CDev_new None) tt).1.1.
Proof.
  split; [reflexivity|].
  apply (hooks_fire_once_per_transition (ops := CDev_base_ops unit) 16
           [call_open 7%N; call_open 8%N; call_close 8%N; call_close 7%N;
            call_close 7%N]
           (CDev_new None) tt).
  reflexivity.
Defined.

Lemma table_ok_one_waiter_dev : table_ok one_waiter_dev.
Proof.
  unfold table_ok. simpl.
  split; [lia|]. split; [reflexivity|].
  repeat constructor; discriminate.
Defined.

Lemma table_ok_new : table_ok (CDev_new None).
Proof.
  unfold table_ok. simpl.
  split; [lia|]. split; [reflexivity|]. constructor.
Defined.

Lemma store_poll_waiter_first_free_or_grow_witness :
  table_ok one_waiter_dev
  ∧ store_poll_waiter 2%N true one_waiter_dev
    = Done (PX4_OK, mkCDev None false 1 [Slot 1%N; Slot 2%N] 2).
Proof.
  split; [exact table_ok_one_waiter_dev|].
  destruct (store_poll_waiter_first_free_or_grow 2%N true one_waiter_dev
              table_ok_one_waiter_dev) as [Hfree _].
  apply (Hfree 1%nat).
  split; [reflexivity|].
  intros [|[|j]] Hj; simpl; [discriminate|lia|lia].
Defined.

(** C3 as it was stated fails when the larger table cannot be allocated:
    a new device (capacity 0, no empty slot) keeps capacity 0 and gets
    [-ENOMEM], where the statement promises capacity 1 and [PX4_OK]. *)
Lemma store_poll_waiter_grow_counterexample :
  table_ok (CDev_new None)
  ∧ (Slot nullptr ∉ _pollset (CDev_new None))
  ∧ _max_pollwaiters (CDev_new None) < 128
  ∧ store_poll_waiter 1%N false (CDev_new None)
    = Done (- ENOMEM, CDev_new None)
  ∧ (store_poll_waiter 1%N false (CDev_new None)
     ≠ Done (PX4_OK, mkCDev None false 0 [Slot 1%N] 1)).
Proof.
  split; [exact table_ok_new|].
  split; [apply not_elem_of_nil|].
  split; [reflexivity|].
  split; [reflexivity|discriminate].
Qed.

Lemma remove_poll_waiter_first_match_or_error_witness :
  table_ok one_waiter_dev
  ∧ remove_poll_waiter 1%N one_waiter_dev
    = Done (PX4_OK, mkCDev None false 1 [Slot nullptr; Slot nullptr] 2).
Proof.
  split; [exact table_ok_one_waiter_dev|].
  destruct (remove_poll_waiter_first_match_or_error 1%N one_waiter_dev
              table_ok_one_waiter_dev) as [Hfound _].
  apply (Hfound 0%nat).
  split; [reflexivity|].
  intros j Hj. lia.
Defined.

Lemma pollset_slots_always_written_witness :
  ∃ d live,
    registry_run [op_add 1%N true; op_add 2%N true; op_remove 1%N;
                  op_add 3%N false]
      (CDev_new None, ∅) = Done (d, live)
    ∧ table_ok d.
Proof.
  destruct (pollset_slots_always_written
              [op_add 1%N true; op_add 2%N true; op_remove 1%N;
               op_add 3%N false] None)
    as (d & live & Hrun & Hok & _).
  exists d, live. split; [exact Hrun|exact Hok].
Defined.


(** * Further properties *)

(** ** Sessions of [open()] and [close()] *)

Section lifecycle_sessions.
Context {S : Type} {ops : CDevOps S}.
Variable bits : positive.

(** One call, away from the top of the counter's range: what it does to
    the count and which hook it calls. *)
Lemma do_call_effect c d s :
  open_count_ok bits (_open_count d) →
  _open_count d + 1 < 2 ^ Z.pos bits →
  let r := do_call bits c d s in
  let st := mkStep c (_open_count d) (_open_count r.1.1.2) r.1.1.1 r.2 in
  step_post st
  = step_pre st + (if open_succeeded st then 1 else 0)
    - (if close_effective st then 1 else 0)
  ∧ match step_hooks st with
    | [] => bool_decide (0 < step_post st) = bool_decide (0 < step_pre st)
    | [called_open_first _] =>
        step_pre st = 0
        ∧ bool_decide (0 < step_post st) = bool_decide (step_ret st = PX4_OK)
    | [called_close_last _] => 0 < step_pre st ∧ step_post st = 0
    | _ => False
    end.
Proof.
  intros Hc Hroom. pose proof open_count_modulus bits as H2.
  assert (Hw : open_count_wrap bits (_open_count d + 1) = _open_count d + 1).
  { apply open_count_wrap_id. unfold open_count_ok in *. lia. }
  unfold open_count_ok in Hc.
  destruct c as [filep|filep]; cbn [do_call].
  - rewrite open_unfold by done.
    unfold open_succeeded, close_effective.
    destruct (decide (_open_count d = 0)) as [E0|E0].
    + destruct (decide ((open_first filep s).1 = PX4_OK)) as [Eh|Eh];
        cbn [fst snd _open_count set_open_count step_call step_pre step_post
             step_ret step_hooks].
      * rewrite (bool_decide_eq_true_2 (PX4_OK = PX4_OK)) by done.
        split; [lia|]. split; [done|]. by rewrite bool_decide_eq_true_2 by lia.
      * rewrite (bool_decide_eq_false_2 _ Eh).
        split; [lia|]. split; [done|]. by rewrite bool_decide_eq_false_2 by lia.
    + cbn [fst snd _open_count set_open_count step_call step_pre step_post
           step_ret step_hooks].
      rewrite Hw. rewrite bool_decide_eq_true_2 by done.
      split; [lia|]. by rewrite !bool_decide_eq_true_2 by lia.
  - rewrite close_unfold by done.
    unfold open_succeeded, close_effective.
    destruct (decide (_open_count d = 0)) as [E0|E0];
      [|destruct (decide (_open_count d = 1)) as [E1|E1]];
      cbn [fst snd _open_count set_open_count step_call step_pre step_post
           step_ret step_hooks].
    + rewrite bool_decide_eq_false_2 by lia. split; [lia|done].
    + rewrite bool_decide_eq_true_2 by lia. split; [lia|]. split; lia.
    + rewrite bool_decide_eq_true_2 by lia. split; [lia|].
      by rewrite !bool_decide_eq_true_2 by lia.
Qed.

Lemma run_balance cs : ∀ d s,
  open_count_ok bits (_open_count d) →
  _open_count d + Z.of_nat (length cs) < 2 ^ Z.pos bits →
  _open_count (run bits cs d s).1.2
  = _open_count d
    + Z.of_nat (length (filter (λ st, open_succeeded st) (run bits cs d s).1.1))
    - Z.of_nat (length (filter (λ st, close_effective st) (run bits cs d s).1.1)).
Proof.
  induction cs as [|c cs IH]; intros d s Hc Hroom; cbn [run].
  - cbn. lia.
  - cbn [length] in Hroom.
    pose proof (do_call_effect c d s Hc) as [Hcount _]; [lia|].
    pose proof (do_call_step_ok bits c d s Hc) as (_ & Hpost & _).
    cbn [step_pre step_post step_ret step_hooks step_call] in Hcount, Hpost.
    destruct (do_call bits c d s) as [[[ret d'] s'] hooks].
    cbn [fst snd] in Hcount, Hpost.
    specialize (IH d' s' Hpost).
    destruct (run bits cs d' s') as [[steps d''] s'']. cbn [fst snd] in *.
    rewrite !filter_cons.
    set (st := mkStep c (_open_count d) (_open_count d') ret hooks) in *.
    rewrite IH by (destruct (open_succeeded st), (close_effective st); lia).
    destruct (open_succeeded st), (close_effective st); simpl; lia.
Qed.

(** X1.  In a session that starts with the open count at 0 and is too
    short to overflow the counter, the open count at the end is the
    number of [open()] calls that returned [PX4_OK] less the number of
    [close()] calls that found the device open. *)
Theorem open_count_is_opens_less_closes cs d s :
  _open_count d = 0 →
  Z.of_nat (length cs) < 2 ^ Z.pos bits →
  _open_count (run bits cs d s).1.2
  = Z.of_nat (length (filter (λ st, open_succeeded st) (run bits cs d s).1.1))
    - Z.of_nat (length (filter (λ st, close_effective st) (run bits cs d s).1.1)).
Proof.
  intros E0 Hlen.
  rewrite run_balance; [lia| |lia].
  rewrite E0. pose proof open_count_modulus bits. unfold open_count_ok. lia.
Qed.

Lemma run_hooks_paired cs : ∀ d s,
  open_count_ok bits (_open_count d) →
  _open_count d + Z.of_nat (length cs) < 2 ^ Z.pos bits →
  hooks_paired (bool_decide (0 < _open_count d)) (run bits cs d s).1.1 = true.
Proof.
  induction cs as [|c cs IH]; intros d s Hc Hroom; cbn [run]; [done|].
  cbn [length] in Hroom.
  pose proof (do_call_effect c d s Hc) as [Hcount Hhooks]; [lia|].
  pose proof (do_call_step_ok bits c d s Hc) as (_ & Hpost & _).
  cbn [step_pre step_post step_ret step_hooks step_call] in Hcount, Hhooks, Hpost.
  destruct (do_call bits c d s) as [[[ret d'] s'] hooks].
  cbn [fst snd] in Hcount, Hhooks, Hpost.
  specialize (IH d' s' Hpost).
  destruct (run bits cs d' s') as [[steps d''] s'']. cbn [fst snd] in *.
  set (st := mkStep c (_open_count d) (_open_count d') ret hooks) in *.
  assert (Hroom' : _open_count d' + Z.of_nat (length cs) < 2 ^ Z.pos bits).
  { destruct (open_succeeded st), (close_effective st); lia. }
  specialize (IH Hroom').
  cbn [hooks_paired step_hooks step_ret st].
  destruct hooks as [|[filep|filep] [|h hooks]]; try done.
  - by rewrite <- Hhooks.
  - destruct Hhooks as [Hpre Hflag]. rewrite <- Hflag, IH.
    by rewrite bool_decide_eq_false_2 by lia.
  - destruct Hhooks as [Hpre Hzero]. rewrite Hzero in IH.
    rewrite bool_decide_eq_true_2 by done.
    by rewrite bool_decide_eq_false_2 in IH by lia.
Qed.

(** X2.  In a session that starts with the open count at 0 and is too
    short to overflow the counter, the hooks are called in pairs:
    [close_last] is only called after an [open_first] that returned
    [PX4_OK], and [open_first] is not called again before that
    [close_last]; only an [open_first] that declined may be followed by
    another [open_first]. *)
Theorem hooks_called_in_pairs cs d s :
  _open_count d = 0 →
  Z.of_nat (length cs) < 2 ^ Z.pos bits →
  hooks_paired false (run bits cs d s).1.1 = true.
Proof.
  intros E0 Hlen.
  pose proof (run_hooks_paired cs d s) as H.
  rewrite E0 in H. rewrite bool_decide_eq_false_2 in H by lia.
  apply H; [|lia].
  pose proof open_count_modulus bits. unfold open_count_ok. lia.
Qed.

End lifecycle_sessions.

(** ** Registration under the device name and under a class name *)

Section names.
Implicit Types (c x y : string) (n : nat).

Lemma substring_prefix_all n : ∀ x,
  (String.length x ≤ n)%nat → String.substring 0 n x = x.
Proof.
  induction n as [|n IH]; intros [|a x] Hlen; cbn in *; try done; try lia.
  f_equal. apply IH. lia.
Qed.

Lemma substring_prefix_app n : ∀ c x,
  (n ≤ String.length c)%nat →
  String.substring 0 n (c +:+ x) = String.substring 0 n c.
Proof.
  induction n as [|n IH]; intros c x Hlen.
  - destruct c; [by destruct x|done].
  - destruct c as [|a c]; cbn in *; [lia|].
    change (String a c +:+ x) with (String a (c +:+ x)). cbn.
    f_equal. apply IH. lia.
Qed.

Lemma string_length_app c x :
  String.length (c +:+ x) = (String.length c + String.length x)%nat.
Proof.
  induction c as [|a c IH]; [done|].
  change (String a c +:+ x) with (String a (c +:+ x)). cbn.
  f_equal. apply IH.
Qed.

Lemma string_app_inj c x y : c +:+ x = c +:+ y → x = y.
Proof.
  induction c as [|a c IH]; [done|].
  change (String a c +:+ ?z) with (String a (c +:+ z)).
  intros [= H]. by apply IH.
Qed.

(** A class name of 31 characters or more fills the buffer. *)
Lemma snprintf_name_long c x :
  (31 ≤ String.length c)%nat → snprintf_name c x = String.substring 0 31 c.
Proof. intros H. unfold snprintf_name. by apply substring_prefix_app. Qed.

Lemma snprintf_name_fits c x :
  (String.length c + String.length x ≤ 31)%nat → snprintf_name c x = c +:+ x.
Proof.
  intros H. unfold snprintf_name. apply substring_prefix_all.
  by rewrite string_length_app.
Qed.

Lemma pretty_instance_length (i : Z) :
  0 ≤ i < 4 → String.length (pretty i) = 1%nat.
Proof.
  intros Hi.
  assert (i = 0 ∨ i = 1 ∨ i = 2 ∨ i = 3) as [->|[->|[->| ->]]] by lia;
    reflexivity.
Qed.

(** X6.  The name tried for an instance of a class is the class name
    followed by the instance digit when the class name has at most 30
    characters, and then the four instances have four different names; a
    class name of 31 characters or more is cut to its first 31 characters,
    the digit is lost, and all instances get the same name. *)
Theorem class_instance_names c :
  ((String.length c ≤ 30)%nat →
     (∀ i : Z, 0 ≤ i < 4 → snprintf_name c (pretty i) = c +:+ pretty i)
     ∧ (∀ i j : Z, 0 ≤ i < 4 → 0 ≤ j < 4 →
          snprintf_name c (pretty i) = snprintf_name c (pretty j) → i = j))
  ∧ ((31 ≤ String.length c)%nat →
       ∀ x y, snprintf_name c x = String.substring 0 31 c
              ∧ snprintf_name c x = snprintf_name c y).
Proof.
  split.
  - intros Hlen.
    assert (Hfit : ∀ i : Z, 0 ≤ i < 4 →
              snprintf_name c (pretty i) = c +:+ pretty i).
    { intros i Hi. apply snprintf_name_fits.
      rewrite pretty_instance_length by done. lia. }
    split; [done|].
    intros i j Hi Hj. rewrite !Hfit by done.
    intros H. apply string_app_inj in H. by apply (inj pretty).
  - intros Hlen x y. by rewrite !snprintf_name_long.
Qed.

End names.

Section registration_sessions.
Context {NS : Type}.
Variable register_driver : string → NS → Z * NS.
Variable unregister_driver : option string → NS → Z * NS.
Implicit Types (d : CDev) (ns : NS) (c : string).

(** [init()] keeps the name, never clears the flag, and sets it exactly
    when it returns [PX4_OK], which it only does with a name. *)
Lemma init_effect d ns :
  let r := init register_driver d ns in
  _devname r.1.1.2 = _devname d
  ∧ (_registered r.1.1.2 = true
     ↔ _registered d = true ∨ r.1.1.1 = PX4_OK)
  ∧ (r.1.1.1 = PX4_OK → is_Some (_devname d)).
Proof.
  unfold init. destruct (_devname d) as [name|] eqn:Ename.
  - destruct (register_driver name ns) as [ret ns'].
    destruct (decide (ret = PX4_OK)) as [E|E]; cbn; rewrite Ename.
    + split_and!; [done|tauto|eauto].
    + split_and!; [done| |eauto].
      split; [tauto|]. intros [H|H]; [done|discriminate].
  - cbn. rewrite Ename. split_and!; [done| |discriminate].
    split; [tauto|]. intros [H|H]; [done|discriminate].
Qed.

Lemma init_each_effect nss : ∀ d,
  let r := init_each register_driver nss d in
  _devname r.2 = _devname d
  ∧ (_registered r.2 = true ↔ _registered d = true ∨ PX4_OK ∈ r.1)
  ∧ (PX4_OK ∈ r.1 → is_Some (_devname d)).
Proof.
  induction nss as [|ns nss IH]; intros d; cbn [init_each].
  - cbn. split_and!; [done| |by intros ?%elem_of_nil].
    split; [by left|]. intros [H|H%elem_of_nil]; done.
  - pose proof (init_effect d ns) as (Hname & Hflag & Hsome).
    destruct (init register_driver d ns) as [[[ret d'] ns'] calls].
    cbn [fst snd] in Hname, Hflag, Hsome.
    specialize (IH d').
    destruct (init_each register_driver nss d') as [rs d''].
    cbn [fst snd] in *. destruct IH as (IHname & IHflag & IHsome).
    rewrite Hname in IHname, IHsome.
    split_and!; [done| |].
    + rewrite IHflag, Hflag, elem_of_cons. intuition congruence.
    + rewrite elem_of_cons. intros [H|H]; eauto.
Qed.

(** X3.  On a new device, however often [init()] is called and
    whatever happens to the namespace in between, the registration flag is
    set exactly when one of the calls returned [PX4_OK] (a later failure
    does not clear it); the destructor then calls [unregister_driver] once,
    with the device name, which is not null; and when no [init()]
    succeeded, or none was made, the destructor does not call
    [unregister_driver]. *)
Theorem destructor_unregisters_what_init_registered nss devname ns :
  let r := init_each register_driver nss (CDev_new devname) in
  (_registered r.2 = true ↔ PX4_OK ∈ r.1)
  ∧ (PX4_OK ∈ r.1 →
       is_Some devname
       ∧ CDev_destroy unregister_driver r.2 ns
         = ((unregister_driver devname ns).2, [devname]))
  ∧ (PX4_OK ∉ r.1 → CDev_destroy unregister_driver r.2 ns = (ns, [])).
Proof.
  pose proof (init_each_effect nss (CDev_new devname))
    as (Hname & Hflag & Hsome).
  cbv zeta. cbn [_devname _registered CDev_new] in Hname, Hflag, Hsome.
  assert (Hiff : _registered
                   (init_each register_driver nss (CDev_new devname)).2
                 = true
                 ↔ PX4_OK ∈ (init_each register_driver nss
                               (CDev_new devname)).1).
  { rewrite Hflag. intuition discriminate. }
  split_and!; [done| |].
  - intros Hin. split; [by apply Hsome|].
    unfold CDev_destroy. apply Hiff in Hin. by rewrite Hin, Hname.
  - intros Hnot. unfold CDev_destroy.
    rewrite (not_true_is_false _ (λ E, Hnot (proj1 Hiff E))). done.
Qed.

(** The loop of [register_class_devname]: the names are tried in the
    order of the instances, and the loop ends with the first success or
    after [n] failures. *)
Lemma register_class_loop_log c n : ∀ i ret0 ns,
  let r := register_class_loop register_driver c i n ret0 ns in
  r.2.*1 = (λ k, snprintf_name c (pretty (i + Z.of_nat k)))
             <$> seq 0 (length r.2)
  ∧ ((Forall (λ e, e.2 ≠ OK) r.2 ∧ length r.2 = n
      ∧ r.1.1.1 = i + Z.of_nat n
      ∧ r.1.1.2 = default ret0 (last r.2.*2))
     ∨ (∃ log0, r.2 = log0 ++ [(snprintf_name c
                                   (pretty (i + Z.of_nat (length log0))), OK)]
         ∧ Forall (λ e, e.2 ≠ OK) log0 ∧ (length log0 < n)%nat
         ∧ r.1.1.1 = i + Z.of_nat (length log0))).
Proof.
  induction n as [|n IH]; intros i ret0 ns; cbn [register_class_loop].
  - cbn. split; [done|]. left. split_and!; [constructor|done|lia|done].
  - destruct (register_driver (snprintf_name c (pretty i)) ns)
      as [ret ns'] eqn:Ereg.
    destruct (decide (ret = OK)) as [E|Hfail].
    + cbn. rewrite Z.add_0_r, E. split; [done|]. right. exists [].
      cbn. rewrite Z.add_0_r. split_and!; [done|constructor|lia|lia].
    + specialize (IH (i + 1) ret ns').
      destruct (register_class_loop register_driver c (i + 1) n ret ns')
        as [[[ci r] ns''] log].
      cbn [fst snd] in *. destruct IH as [Hnames Hend].
      split.
      * cbn [fmap list_fmap length seq]. rewrite Z.add_0_r. f_equal.
        rewrite <- fmap_S_seq, <- list_fmap_compose.
        etrans; [exact Hnames|]. apply list_fmap_ext.
        intros _ k _. cbn. do 2 f_equal. lia.
      * destruct Hend as [(Hall & Hlen & Hci & Hr)|(log0 & -> & Hall & Hlen & Hci)].
        -- left. split_and!.
           ++ by constructor.
           ++ cbn. lia.
           ++ lia.
           ++ rewrite Hr. destruct log as [|e log]; [done|].
              rewrite !fmap_cons, last_cons_cons.
              destruct (last (e.2 :: log.*2)) eqn:El; [done|].
              by apply last_None in El.
        -- right. exists ((snprintf_name c (pretty i), ret) :: log0).
           cbn [length app]. split_and!.
           ++ replace (i + Z.of_nat (Datatypes.S (length log0)))
                with (i + 1 + Z.of_nat (length log0)) by lia.
              done.
           ++ by constructor.
           ++ lia.
           ++ lia.
Qed.

(** X4.  [register_class_devname] without a class name returns
    [-EINVAL] and calls nothing.  With a class name it calls
    [register_driver] for instance 0, 1, 2, 3 in this order and stops at
    the first call that returns [OK]: there are between one and four
    calls, all but the last failed, and the result is the number of the
    instance whose call returned [OK] or, when all four calls failed, the
    result of the fourth. *)
Theorem register_class_devname_tries_in_order c ns :
  register_class_devname register_driver None ns = (- EINVAL, ns, [])
  ∧ let r := register_class_devname register_driver (Some c) ns in
    (1 ≤ length r.2 ≤ 4)%nat
    ∧ r.2.*1 = (λ k, snprintf_name c (pretty (Z.of_nat k)))
                 <$> seq 0 (length r.2)
    ∧ Forall (λ e, e.2 ≠ OK) (take (length r.2 - 1) r.2)
    ∧ ∃ name ret, last r.2 = Some (name, ret)
        ∧ if decide (ret = OK)
          then r.1.1 = Z.of_nat (length r.2) - 1
          else length r.2 = 4%nat ∧ r.1.1 = ret.
Proof.
  split; [done|]. cbv zeta. unfold register_class_devname.
  pose proof (register_class_loop_log c 4 0 (- ENOSPC) ns) as [Hnames Hend].
  destruct (register_class_loop register_driver c 0 4 (- ENOSPC) ns)
    as [[[ci r] ns'] log].
  cbn [fst snd] in *.
  assert (Hnames' : log.*1 = (λ k, snprintf_name c (pretty (Z.of_nat k)))
                               <$> seq 0 (length log)).
  { etrans; [exact Hnames|]. apply list_fmap_ext. intros k x _. done. }
  destruct Hend as [(Hall & Hlen & Hci & Hr)|(log0 & -> & Hall & Hlen & Hci)].
  - rewrite decide_True by lia. cbn [fst snd].
    split_and!; [lia|lia|done|by apply Forall_take|].
    destruct (last log) as [[name ret]|] eqn:Elast.
    + exists name, ret. split; [done|].
      rewrite fmap_last, Elast in Hr. cbn in Hr.
      rewrite decide_False; [done|].
      apply last_Some_elem_of in Elast.
      rewrite Forall_forall in Hall. apply (Hall _ Elast).
    + apply last_None in Elast. subst log. done.
  - rewrite decide_False by lia. cbn [fst snd].
    rewrite length_app in *. cbn [length] in *.
    split_and!; [lia|lia|done| |].
    + replace (length log0 + 1 - 1)%nat with (length log0) by lia.
      by rewrite take_app_length.
    + eexists _, _. rewrite last_snoc. split; [done|].
      rewrite decide_True by done. lia.
Qed.

(** The results in the log are results of [register_driver]. *)
Lemma register_class_loop_rets c n : ∀ i ret0 ns,
  Forall (λ e, ∃ ns0, (register_driver e.1 ns0).1 = e.2)
    (register_class_loop register_driver c i n ret0 ns).2.
Proof.
  induction n as [|n IH]; intros i ret0 ns; cbn [register_class_loop].
  - constructor.
  - destruct (register_driver (snprintf_name c (pretty i)) ns)
      as [ret ns'] eqn:Ereg.
    assert (Hthis : ∃ ns0,
              (register_driver (snprintf_name c (pretty i), ret).1 ns0).1
              = (snprintf_name c (pretty i), ret).2).
    { exists ns. cbn. by rewrite Ereg. }
    destruct (decide (ret = OK)) as [E|Hfail].
    + cbn. by repeat constructor.
    + specialize (IH (i + 1) ret ns').
      destruct (register_class_loop register_driver c (i + 1) n ret ns')
        as [[[ci r] ns''] log].
      cbn [fst snd] in *. by constructor.
Qed.

Lemma pretty_instance_unsigned (i : Z) :
  0 ≤ i < 4 → pretty (Z.to_N i) = pretty i.
Proof.
  intros Hi.
  assert (i = 0 ∨ i = 1 ∨ i = 2 ∨ i = 3) as [->|[->|[->| ->]]] by lia;
    reflexivity.
Qed.

(** X5.  With a [register_driver] that never returns a positive value,
    the result of [register_class_devname] tells what happened.  A result
    that is not negative is an instance number from 0 to 3; the last call
    of [register_driver] returned [OK] and was made with the name of that
    instance, and [unregister_class_devname] with the same class name and
    that number calls [unregister_driver] with exactly this name.  A
    negative result means that all four calls failed. *)
Theorem class_instance_number_names_the_binding c ns ns2 :
  (∀ name ns0, (register_driver name ns0).1 ≤ 0) →
  let r := register_class_devname register_driver (Some c) ns in
  (0 ≤ r.1.1 →
     r.1.1 < 4
     ∧ last r.2 = Some (snprintf_name c (pretty r.1.1), OK)
     ∧ (unregister_class_devname unregister_driver c (Z.to_N r.1.1) ns2).2
       = snprintf_name c (pretty r.1.1))
  ∧ (r.1.1 < 0 → length r.2 = 4%nat ∧ Forall (λ e, e.2 ≠ OK) r.2).
Proof.
  intros Hsign. cbv zeta. unfold register_class_devname.
  pose proof (register_class_loop_log c 4 0 (- ENOSPC) ns) as [_ Hend].
  pose proof (register_class_loop_rets c 4 0 (- ENOSPC) ns) as Hrets.
  destruct (register_class_loop register_driver c 0 4 (- ENOSPC) ns)
    as [[[ci r] ns'] log].
  cbn [fst snd] in *.
  destruct Hend as [(Hall & Hlen & Hci & Hr)|(log0 & -> & Hall & Hlen & Hci)].
  - rewrite decide_True by lia. cbn [fst snd].
    assert (Hneg : r < 0).
    { destruct (last log) as [[name ret]|] eqn:Elast;
        [|apply last_None in Elast; by subst log].
      rewrite fmap_last, Elast in Hr. cbn in Hr. subst r.
      apply last_Some_elem_of in Elast.
      rewrite Forall_forall in Hall, Hrets.
      specialize (Hall _ Elast). destruct (Hrets _ Elast) as [ns0 Hret].
      cbn in Hall, Hret. specialize (Hsign name ns0).
      unfold OK in Hall. lia. }
    split; [lia|done].
  - rewrite decide_False by lia. cbn [fst snd]. subst ci.
    rewrite Z.add_0_l. split; [|lia]. intros _.
    split; [lia|]. split; [by rewrite last_snoc|].
    unfold unregister_class_devname.
    rewrite pretty_instance_unsigned by lia.
    by destruct (unregister_driver _ ns2).
Qed.

End registration_sessions.

(** ** The table over its life *)

Section registry_life.
Implicit Types (t : list slot) (d : CDev) (fds p : ptr) (i j : nat).

Lemma occupied_app t1 t2 : occupied (t1 ++ t2) = occupied t1 ++ occupied t2.
Proof. unfold occupied. apply omap_app. Qed.

Lemma occupied_replicate_null n : occupied (replicate n (Slot nullptr)) = [].
Proof. induction n as [|n IH]; [done|]. cbn. by rewrite decide_True. Qed.

Lemma occupied_length t : (length (occupied t) ≤ length t)%nat.
Proof.
  induction t as [|c t IH]; [done|].
  unfold occupied in *. cbn. destruct (occupant c); cbn; lia.
Qed.

(** All slots are occupied exactly when none is empty. *)
Lemma occupied_length_full t :
  Forall (λ c, c ≠ Uninit) t →
  length (occupied t) = length t ↔ Slot nullptr ∉ t.
Proof.
  induction 1 as [|c t Hc Hall IH]; [by split; [intros; apply not_elem_of_nil|]|].
  pose proof (occupied_length t) as Hle.
  rewrite not_elem_of_cons. unfold occupied in *. cbn.
  destruct c as [|p]; [done|]. cbn.
  destruct (decide (nullptr = p)) as [<-|Hne]; cbn.
  - split; [lia|]. intros [H _]. done.
  - rewrite <- IH. split; [intros; split; [congruence|lia]|]. intros [_ H]. lia.
Qed.

Lemma occupied_elem t p : p ∈ occupied t ↔ p ≠ nullptr ∧ Slot p ∈ t.
Proof.
  unfold occupied. rewrite list_elem_of_omap. split.
  - intros ([|q] & Hin & Hocc); cbn in Hocc; [done|].
    destruct (decide (nullptr = q)); [done|]. injection Hocc as <-.
    split; [congruence|done].
  - intros [Hne Hin]. exists (Slot p). split; [done|]. cbn.
    rewrite decide_False; [done|congruence].
Qed.

(** What [store_poll_waiter] does to the capacity. *)
Lemma store_poll_waiter_capacity fds alloc d :
  table_ok d →
  ∃ ret d', store_poll_waiter fds alloc d = Done (ret, d')
    ∧ table_ok d'
    ∧ (_max_pollwaiters d' = _max_pollwaiters d
       ∨ (_max_pollwaiters d < 128
          ∧ _max_pollwaiters d' = grown_capacity (_max_pollwaiters d))).
Proof.
  intros Hok.
  destruct (first_at_or_absent (Slot nullptr) (_pollset d)) as [[i Hi]|Hfull].
  - rewrite (store_poll_waiter_free _ _ _ i) by done.
    eexists _, _. split; [done|]. split; [by apply table_ok_insert|by left].
  - rewrite store_poll_waiter_full by done.
    destruct (decide (128 ≤ _max_pollwaiters d)) as [Hmax|Hmax];
      [|destruct alloc].
    + eexists _, _. split; [done|]. split; [done|by left].
    + eexists _, _. split; [done|].
      split; [apply table_ok_grown; [done|lia]|]. right. cbn. lia.
    + eexists _, _. split; [done|]. split; [done|by left].
Qed.

Lemma remove_poll_waiter_capacity fds d :
  table_ok d →
  ∃ ret d', remove_poll_waiter fds d = Done (ret, d')
    ∧ table_ok d' ∧ _max_pollwaiters d' = _max_pollwaiters d.
Proof.
  intros Hok.
  destruct (first_at_or_absent (Slot fds) (_pollset d)) as [[i Hi]|Hnot].
  - rewrite (remove_poll_waiter_found _ _ i) by done.
    eexists _, _. split; [done|]. split; [by apply table_ok_insert|done].
  - rewrite remove_poll_waiter_absent by done. eauto.
Qed.

Lemma grown_capacity_steps cap :
  cap ∈ capacity_steps → cap < 128 → grown_capacity cap ∈ capacity_steps.
Proof.
  unfold capacity_steps, grown_capacity.
  rewrite !elem_of_cons, !elem_of_nil. case_decide; lia.
Qed.

Lemma registry_step_capacity o st :
  registry_inv st →
  ∃ st', registry_step o st = Done st'
    ∧ _max_pollwaiters st.1 ≤ _max_pollwaiters st'.1
    ∧ (_max_pollwaiters st.1 ∈ capacity_steps →
       _max_pollwaiters st'.1 ∈ capacity_steps)
    ∧ (∀ fds, o = op_remove fds →
         _max_pollwaiters st'.1 = _max_pollwaiters st.1).
Proof.
  destruct st as [d live]. intros [Hok _]. cbn [fst snd] in *.
  destruct o as [fds alloc|fds]; cbn [registry_step fst snd].
  - destruct (store_poll_waiter_capacity fds alloc d Hok)
      as (ret & d' & -> & _ & Hcap).
    step_bind. eexists. split; [done|]. cbn [fst snd].
    split_and!; [|intros Hin|done].
    + destruct Hcap as [->|[Hlt ->]]; [lia|].
      unfold grown_capacity. destruct Hok as (? & _). case_decide; lia.
    + destruct Hcap as [->|[Hlt ->]]; [done|].
      by apply grown_capacity_steps.
  - destruct (remove_poll_waiter_capacity fds d Hok)
      as (ret & d' & -> & _ & Hcap).
    step_bind. eexists. split; [done|]. cbn [fst snd].
    rewrite Hcap. split_and!; [lia|done|done].
Qed.

Lemma registry_run_capacity ops : ∀ st,
  registry_inv st → _max_pollwaiters st.1 ∈ capacity_steps →
  ∃ st', registry_run ops st = Done st' ∧ registry_inv st'
    ∧ _max_pollwaiters st'.1 ∈ capacity_steps.
Proof.
  induction ops as [|o ops IH]; intros st Hst Hcap; cbn [registry_run].
  - eauto.
  - destruct (registry_step_inv o st Hst) as (st1 & Hstep & Hst1).
    destruct (registry_step_capacity o st Hst) as (st1' & Hstep' & _ & Hin & _).
    rewrite Hstep in Hstep'. injection Hstep' as <-.
    rewrite Hstep. step_bind. apply IH; [done|by apply Hin].
Qed.

(** X7.  From a new device, after any sequence of [store_poll_waiter]
    and [remove_poll_waiter] calls, the capacity is one of 0, 1, 2, 4, 8,
    16, 32, 64, 128; a further call never lowers it, and a
    [remove_poll_waiter] leaves it as it is. *)
Theorem capacity_is_a_power_of_two_up_to_128 ops devname :
  ∃ d live,
    registry_run ops (CDev_new devname, ∅) = Done (d, live)
    ∧ _max_pollwaiters d ∈ capacity_steps
    ∧ ∀ o, ∃ d' live',
        registry_step o (d, live) = Done (d', live')
        ∧ _max_pollwaiters d ≤ _max_pollwaiters d'
        ∧ (∀ fds, o = op_remove fds →
             _max_pollwaiters d' = _max_pollwaiters d).
Proof.
  destruct (registry_run_capacity ops (CDev_new devname, ∅))
    as ([d live] & Hrun & Hinv & Hcap).
  { apply registry_inv_new. }
  { cbn. unfold capacity_steps. apply list_elem_of_here. }
  exists d, live. split_and!; [done|done|].
  intros o.
  destruct (registry_step_capacity o (d, live) Hinv)
    as ([d' live'] & Hstep & Hle & _ & Hrem).
  exists d', live'. done.
Qed.

(** X9.  From a new device, after any sequence of calls, the table
    holds at most 128 waiters, and while the larger table can be
    allocated [store_poll_waiter] fails exactly when it holds 128: with
    fewer it returns [PX4_OK], with 128 it returns [-ENOMEM] and leaves the
    device as it is. *)
Theorem store_poll_waiter_fails_at_128_waiters ops devname fds :
  ∃ d live,
    registry_run ops (CDev_new devname, ∅) = Done (d, live)
    ∧ (length (occupied (_pollset d)) ≤ 128)%nat
    ∧ (length (occupied (_pollset d)) = 128%nat →
         store_poll_waiter fds true d = Done (- ENOMEM, d))
    ∧ ((length (occupied (_pollset d)) < 128)%nat →
         ∃ d', store_poll_waiter fds true d = Done (PX4_OK, d')).
Proof.
  destruct (registry_run_capacity ops (CDev_new devname, ∅))
    as ([d live] & Hrun & [Hok _] & Hcap).
  { apply registry_inv_new. }
  { cbn. unfold capacity_steps. apply list_elem_of_here. }
  cbn [fst snd] in *. exists d, live. split; [done|].
  assert (Hmax : _max_pollwaiters d ≤ 128).
  { unfold capacity_steps in Hcap. rewrite !elem_of_cons, elem_of_nil in Hcap.
    lia. }
  pose proof Hok as (Hrange & Hlen & Hall).
  pose proof (occupied_length (_pollset d)) as Hle.
  pose proof (occupied_length_full (_pollset d) Hall) as Hfull.
  split_and!.
  - lia.
  - intros H128.
    assert (Slot nullptr ∉ _pollset d) as Hnone by (apply Hfull; lia).
    rewrite store_poll_waiter_full by done.
    rewrite decide_True by lia. done.
  - intros Hlt.
    destruct (first_at_or_absent (Slot nullptr) (_pollset d)) as [[i Hi]|Hnone].
    + rewrite (store_poll_waiter_free _ _ _ i) by done. eauto.
    + rewrite store_poll_waiter_full by done.
      apply Hfull in Hnone. rewrite decide_False by lia. eauto.
Qed.

(** X8.  Storing a waiter that is not in the table and removing it
    again gives the table back: every slot is as before, and where the
    table had to grow the new slots are all empty.  When the store fails
    the device is unchanged and the removal reports [-EINVAL]. *)
Theorem store_then_remove_restores_the_slots fds alloc d :
  table_ok d → fds ≠ nullptr → Slot fds ∉ _pollset d →
  ∃ ret d1,
    store_poll_waiter fds alloc d = Done (ret, d1)
    ∧ (ret = PX4_OK →
         ∃ d2, remove_poll_waiter fds d1 = Done (PX4_OK, d2)
           ∧ _max_pollwaiters d2 = _max_pollwaiters d1
           ∧ _pollset d2
             = _pollset d
               ++ replicate
                    (Z.to_nat (_max_pollwaiters d1 - _max_pollwaiters d))
                    (Slot nullptr)
           ∧ occupied (_pollset d2) = occupied (_pollset d))
    ∧ (ret ≠ PX4_OK →
         d1 = d ∧ remove_poll_waiter fds d1 = Done (- EINVAL, d1)).
Proof.
  intros Hok Hfds Hnew.
  assert (Hnotin : ∀ j, _pollset d !! j ≠ Some (Slot fds)).
  { intros j Hj. apply Hnew. by eapply list_elem_of_lookup_2. }
  destruct (first_at_or_absent (Slot nullptr) (_pollset d)) as [[i Hi]|Hfull].
  - rewrite (store_poll_waiter_free _ _ _ i) by done.
    eexists _, _. split; [done|]. split; [intros _|done].
    pose proof (lookup_lt_Some _ _ _ (proj1 Hi)) as Hlt.
    rewrite (remove_poll_waiter_found _ _ i).
    + eexists. split; [done|]. cbn [_pollset _max_pollwaiters set_pollset].
      rewrite list_insert_insert_eq, (list_insert_id _ _ _ (proj1 Hi)).
      rewrite Z.sub_diag. cbn. rewrite app_nil_r. done.
    + by apply table_ok_insert.
    + split; cbn [_pollset set_pollset].
      * by apply list_lookup_insert_eq.
      * intros j Hj. rewrite list_lookup_insert_ne by lia. apply Hnotin.
  - rewrite store_poll_waiter_full by done.
    destruct (decide (128 ≤ _max_pollwaiters d)) as [Hmax|Hmax];
      [|destruct alloc].
    + eexists _, _. split; [done|]. split; [done|intros _].
      split; [done|]. by apply remove_poll_waiter_absent.
    + eexists _, _. split; [done|]. split; [intros _|done].
      pose proof Hok as (Hrange & Hlen & Hall).
      set (t := _pollset d) in *. set (cap := _max_pollwaiters d) in *.
      rewrite (remove_poll_waiter_found _ _ (length t)).
      * assert (Htab : <[length t := Slot nullptr]> (grown_table t cap fds)
                       = t ++ replicate (Z.to_nat (grown_capacity cap - cap))
                                (Slot nullptr)).
        { unfold grown_table.
          replace (length t) with (length t + 0)%nat at 1 by lia.
          rewrite insert_app_r. cbn [insert list_insert].
          replace (Z.to_nat (grown_capacity cap - cap))
            with (Datatypes.S (Z.to_nat (grown_capacity cap - cap - 1))); [done|].
          unfold grown_capacity. case_decide; lia. }
        eexists. split; [done|]. cbn [_pollset _max_pollwaiters set_pollset].
        rewrite Htab. split_and!; [done|done|].
        by rewrite occupied_app, occupied_replicate_null, app_nil_r.
      * apply table_ok_grown; [done|lia].
      * split; cbn [_pollset]; unfold grown_table.
        -- by rewrite list_lookup_middle.
        -- intros j Hj. rewrite lookup_app_l by lia. apply Hnotin.
    + eexists _, _. split; [done|]. split; [done|intros _].
      split; [done|]. by apply remove_poll_waiter_absent.
Qed.

End registry_life.

(** ** What a notification does to the memory *)

Section notify_effects.
Variable nuttx : bool.
Variable getvalue : px4_sem_t → option Z.
Implicit Types (t : list slot) (d : CDev) (p q s : ptr) (m : memory)
  (f : px4_pollfd_struct_t) (sm : px4_sem_t) (evs : Z) (ps : list ptr).

Lemma notified_twice evs f : notified evs (notified evs f) = notified evs f.
Proof.
  unfold notified, set_revents. cbn. f_equal.
  by rewrite <- Z.lor_assoc, Z.lor_diag.
Qed.

(** The records after one visit. *)
Lemma poll_notify_one_records p evs m m' f :
  pollfds m !! p = Some f →
  poll_notify_one nuttx getvalue p evs m = Done m' →
  pollfds m' = <[p := notified evs f]> (pollfds m).
Proof.
  intros Hf Hrun.
  destruct (sems m !! sem f) as [sm|] eqn:Hsm;
    [|unfold poll_notify_one, load_pollfd, load_sem in Hrun;
      rewrite Hf in Hrun; revert Hrun; step_bind; by rewrite Hsm].
  rewrite (poll_notify_one_mapped _ _ _ _ _ f sm) in Hrun by done.
  injection Hrun as <-. cbv zeta. by case_decide.
Qed.

(** The semaphores after one visit: the waiter's own may have gone up by
    one, and then it seemed asleep; no other changes. *)
Lemma poll_notify_one_sems p evs m m' f sm :
  pollfds m !! p = Some f → sems m !! sem f = Some sm →
  poll_notify_one nuttx getvalue p evs m = Done m' →
  sems m' = sems m
  ∨ (sems m' = <[sem f := mkSem (semcount sm + 1)]> (sems m)
     ∧ seems_asleep nuttx getvalue sm
     ∧ revents (notified evs f) ≠ 0).
Proof.
  intros Hf Hsm Hrun.
  rewrite (poll_notify_one_mapped _ _ _ _ _ f sm) in Hrun by done.
  injection Hrun as <-. cbv zeta. case_decide as Hpost; [|by left].
  right. cbn. tauto.
Qed.

Lemma visit_each_step p ps evs m m' :
  visit_each nuttx getvalue (p :: ps) evs m = Done m' →
  ∃ m1 f sm,
    pollfds m !! p = Some f ∧ sems m !! sem f = Some sm
    ∧ poll_notify_one nuttx getvalue p evs m = Done m1
    ∧ visit_each nuttx getvalue ps evs m1 = Done m'.
Proof.
  cbn [visit_each].
  destruct (pollfds m !! p) as [f|] eqn:Hf;
    [|unfold poll_notify_one, load_pollfd; rewrite Hf; by step_bind].
  destruct (sems m !! sem f) as [sm|] eqn:Hsm;
    [|unfold poll_notify_one, load_pollfd, load_sem; rewrite Hf; step_bind;
      rewrite Hsm; by step_bind].
  pose proof (poll_notify_one_mapped nuttx getvalue p evs m f sm Hf Hsm) as Hone.
  rewrite Hone. step_bind. intros Hrest.
  eexists _, f, sm. by split_and!.
Qed.

(** The records after the visits: those visited are notified, once
    however often they are visited; the others are as before. *)
Lemma visit_each_records ps evs : ∀ m m',
  visit_each nuttx getvalue ps evs m = Done m' →
  ∀ p, pollfds m' !! p
       = if decide (p ∈ ps) then notified evs <$> pollfds m !! p
         else pollfds m !! p.
Proof.
  induction ps as [|p0 ps IH]; intros m m' Hrun p.
  - cbn in Hrun. injection Hrun as <-.
    rewrite decide_False; [done|apply not_elem_of_nil].
  - apply visit_each_step in Hrun as (m1 & f & sm & Hf & Hsm & Hone & Hrest).
    rewrite (IH _ _ Hrest p).
    rewrite (poll_notify_one_records _ _ _ _ _ Hf Hone).
    destruct (decide (p = p0)) as [->|Hne].
    + rewrite lookup_insert_eq, Hf.
      rewrite (decide_True (P := p0 ∈ p0 :: ps)) by apply list_elem_of_here.
      case_decide; cbn; [by rewrite notified_twice|done].
    + rewrite lookup_insert_ne by done.
      destruct (decide (p ∈ ps)) as [Hin|Hnin].
      * rewrite decide_True; [done|by apply list_elem_of_further].
      * rewrite decide_False; [done|]. rewrite not_elem_of_cons. done.
Qed.

Lemma sems_moved_refl m : sems_moved nuttx getvalue m m.
Proof.
  intros s. destruct (sems m !! s); [|done]. split; lia.
Qed.

Lemma sems_moved_trans m1 m2 m3 :
  sems_moved nuttx getvalue m1 m2 → sems_moved nuttx getvalue m2 m3 →
  sems_moved nuttx getvalue m1 m3.
Proof.
  intros H12 H23 s. specialize (H12 s). specialize (H23 s).
  destruct (sems m1 !! s), (sems m2 !! s), (sems m3 !! s); try done.
  destruct H12 as [Ha Hb], H23 as [Hc Hd].
  split; [lia|]. intros Hq. specialize (Hb Hq). specialize (Hd Hq). lia.
Qed.

Lemma poll_notify_one_sems_moved p evs m m' :
  poll_notify_one nuttx getvalue p evs m = Done m' →
  sems_moved nuttx getvalue m m'.
Proof.
  intros Hone.
  assert (Hstep : visit_each nuttx getvalue [p] evs m = Done m').
  { cbn [visit_each]. rewrite Hone. by step_bind. }
  apply visit_each_step in Hstep as (m1 & f & sm & Hf & Hsm & Hone' & _).
  destruct (poll_notify_one_sems _ _ _ _ _ _ Hf Hsm Hone)
    as [Hsame|(Hpost & Hasleep & _)].
  - intros s. rewrite Hsame. apply (sems_moved_refl m s).
  - intros s. rewrite Hpost.
    destruct (decide (sem f = s)) as [<-|Hne].
    + rewrite lookup_insert_eq, Hsm. split; cbn; [lia|].
      intros Hq. unfold seems_asleep in Hasleep. rewrite Hq in Hasleep. lia.
    + rewrite lookup_insert_ne by done.
      destruct (sems m !! s); [|done]. split; lia.
Qed.

Lemma visit_each_sems_moved ps evs : ∀ m m',
  visit_each nuttx getvalue ps evs m = Done m' →
  sems_moved nuttx getvalue m m'.
Proof.
  induction ps as [|p0 ps IH]; intros m m' Hrun.
  - cbn in Hrun. injection Hrun as <-. apply sems_moved_refl.
  - apply visit_each_step in Hrun as (m1 & f & sm & Hf & Hsm & Hone & Hrest).
    eapply sems_moved_trans; [by eapply poll_notify_one_sems_moved|by eapply IH].
Qed.

(** A semaphore that no visited waiter points to is left alone. *)
Lemma visit_each_sems_untouched ps evs s : ∀ m m',
  visit_each nuttx getvalue ps evs m = Done m' →
  (∀ p f, p ∈ ps → pollfds m !! p = Some f → sem f ≠ s) →
  sems m' !! s = sems m !! s.
Proof.
  induction ps as [|p0 ps IH]; intros m m' Hrun Hother.
  - cbn in Hrun. by injection Hrun as <-.
  - apply visit_each_step in Hrun as (m1 & f & sm & Hf & Hsm & Hone & Hrest).
    rewrite (IH _ _ Hrest).
    + destruct (poll_notify_one_sems _ _ _ _ _ _ Hf Hsm Hone)
        as [->|(-> & _)]; [done|].
      rewrite lookup_insert_ne; [done|].
      eapply Hother; [apply list_elem_of_here|done].
    + intros p f1 Hin. rewrite (poll_notify_one_records _ _ _ _ _ Hf Hone).
      destruct (decide (p0 = p)) as [->|Hne].
      * rewrite lookup_insert_eq. intros [= <-]. cbn.
        eapply Hother; [apply list_elem_of_here|done].
      * rewrite lookup_insert_ne by done.
        apply Hother. by apply list_elem_of_further.
Qed.

Lemma counts_not_negative_moved m m' :
  sems_moved nuttx getvalue m m' →
  counts_not_negative m → counts_not_negative m'.
Proof.
  intros Hmoved Hpos s b Hb. specialize (Hmoved s). rewrite Hb in Hmoved.
  destruct (sems m !! s) as [a|] eqn:Ha; [|done].
  destruct Hmoved as [Hle _]. specialize (Hpos s a Ha). lia.
Qed.

(** After the visits every visited waiter that has an event ready has
    been woken or was awake. *)
Lemma visit_each_wakes ps evs : ∀ m m',
  counts_readable nuttx getvalue → counts_not_negative m →
  visit_each nuttx getvalue ps evs m = Done m' →
  Forall (woken m') ps.
Proof.
  intros m m' Hread. revert m m'.
  induction ps as [|p0 ps IH]; intros m m' Hpos Hrun; [constructor|].
  pose proof Hrun as Hall.
  apply visit_each_step in Hrun as (m1 & f & sm & Hf & Hsm & Hone & Hrest).
  pose proof (poll_notify_one_sems_moved _ _ _ _ Hone) as Hmoved1.
  pose proof (visit_each_sems_moved _ _ _ _ Hrest) as Hmoved2.
  constructor;
    [|apply (IH m1); [by eapply counts_not_negative_moved|done]].
  (* the record of [p0] at the end *)
  pose proof (visit_each_records _ _ _ _ Hall p0) as Hrec.
  rewrite decide_True, Hf in Hrec by apply list_elem_of_here. cbn in Hrec.
  (* its semaphore right after its visit *)
  assert (∃ sm1, sems m1 !! sem f = Some sm1
                 ∧ (revents (notified evs f) ≠ 0 → 1 ≤ semcount sm1))
    as (sm1 & Hsm1 & Hup).
  { destruct (poll_notify_one_sems _ _ _ _ _ _ Hf Hsm Hone)
      as [Hsame|(Hpost & _)].
    - exists sm. rewrite Hsame. split; [done|]. intros Hready.
      rewrite (poll_notify_one_mapped _ _ _ _ _ f sm) in Hone by done.
      injection Hone as Hm1. cbv zeta in Hm1. revert Hm1.
      case_decide as Hpost.
      + intros <-. cbn in Hsame.
        apply (f_equal (λ g, g !! sem f)) in Hsame.
        rewrite lookup_insert_eq, Hsm in Hsame. injection Hsame as Hsame.
        apply (f_equal semcount) in Hsame. cbn in Hsame. lia.
      + intros _. unfold seems_asleep in Hpost. rewrite Hread in Hpost.
        unfold notified in Hready. cbn in Hready.
        destruct (decide (semcount sm ≤ 0)); [tauto|lia].
    - exists (mkSem (semcount sm + 1)). rewrite Hpost, lookup_insert_eq.
      split; [done|]. intros _. cbn. specialize (Hpos _ _ Hsm). lia. }
  specialize (Hmoved2 (sem f)). rewrite Hsm1 in Hmoved2.
  destruct (sems m' !! sem f) as [sm'|] eqn:Hsm'; [|done].
  exists (notified evs f), sm'. split_and!; [done|done|].
  intros Hready. destruct Hmoved2 as [Hle _]. specialize (Hup Hready). lia.
Qed.

(** Visits of waiters that are notified already and woken change
    nothing. *)
Lemma visit_each_settled ps evs m :
  counts_readable nuttx getvalue →
  Forall (λ p, ∃ f sm, pollfds m !! p = Some f ∧ sems m !! sem f = Some sm
                       ∧ notified evs f = f
                       ∧ (revents f ≠ 0 → 1 ≤ semcount sm)) ps →
  visit_each nuttx getvalue ps evs m = Done m.
Proof.
  intros Hread. induction 1 as [|p ps (f & sm & Hf & Hsm & Hfix & Hup) _ IH].
  - done.
  - cbn [visit_each].
    rewrite (poll_notify_one_mapped _ _ _ _ _ f sm) by done. cbv zeta.
    change (set_revents f (Z.lor (revents f) (Z.land (events f) evs)))
      with (notified evs f).
    assert (Hr : Z.lor (revents f) (Z.land (events f) evs) = revents f).
    { apply (f_equal revents) in Hfix. exact Hfix. }
    rewrite Hfix, Hr, store_pollfd_same by done.
    rewrite decide_False; [by step_bind|].
    unfold seems_asleep. rewrite Hread. intros [Hready Hasleep].
    specialize (Hup Hready). lia.
Qed.

(** X10.  A notification leaves in every registered record its old
    [revents] ORed with [events & evs], whatever the number of slots that
    hold the record, and changes nothing else in it; records that are not
    registered are not touched. *)
Theorem poll_notify_marks_the_registered_records evs d m :
  table_ok d → waiters_valid (_pollset d) m →
  ∃ m', poll_notify nuttx getvalue evs d m = Done m'
    ∧ ∀ p, pollfds m' !! p
           = if decide (p ∈ occupied (_pollset d))
             then notified evs <$> pollfds m !! p
             else pollfds m !! p.
Proof.
  intros Hok Hval. rewrite poll_notify_visits by done.
  destruct (visit_each_total nuttx getvalue _ evs m Hval) as [m' Hrun].
  exists m'. split; [done|]. by apply visit_each_records.
Qed.

(** X11.  A notification creates and destroys no semaphore and never
    lowers a count.  Where the count can be read, a count above 0 stays as
    it is and a count of 0 or below ends at 1 at most.  A semaphore that no
    registered record points to is not touched. *)
Theorem poll_notify_posts_sleepers_only evs d m :
  table_ok d → waiters_valid (_pollset d) m →
  ∃ m', poll_notify nuttx getvalue evs d m = Done m'
    ∧ (∀ s, sems m' !! s = None ↔ sems m !! s = None)
    ∧ (∀ s a b, sems m !! s = Some a → sems m' !! s = Some b →
         semcount a ≤ semcount b
         ∧ (counts_readable nuttx getvalue → semcount b ≤ Z.max (semcount a) 1))
    ∧ (∀ s, (∀ p f, p ∈ occupied (_pollset d) → pollfds m !! p = Some f →
               sem f ≠ s) →
         sems m' !! s = sems m !! s).
Proof.
  intros Hok Hval. rewrite poll_notify_visits by done.
  destruct (visit_each_total nuttx getvalue _ evs m Hval) as [m' Hrun].
  exists m'. pose proof (visit_each_sems_moved _ _ _ _ Hrun) as Hmoved.
  split_and!; [done| | |].
  - intros s. specialize (Hmoved s).
    destruct (sems m !! s), (sems m' !! s); done.
  - intros s a b Ha Hb. specialize (Hmoved s). by rewrite Ha, Hb in Hmoved.
  - intros s. by apply (visit_each_sems_untouched _ evs).
Qed.

(** X12.  Where the counts can be read and none is negative, after a
    notification every registered waiter that has an event ready finds the
    count of its semaphore at 1 or more: no wake-up is missed. *)
Theorem poll_notify_wakes_every_ready_waiter evs d m :
  table_ok d → waiters_valid (_pollset d) m →
  counts_readable nuttx getvalue → counts_not_negative m →
  ∃ m', poll_notify nuttx getvalue evs d m = Done m'
    ∧ Forall (woken m') (occupied (_pollset d)).
Proof.
  intros Hok Hval Hread Hpos. rewrite poll_notify_visits by done.
  destruct (visit_each_total nuttx getvalue _ evs m Hval) as [m' Hrun].
  exists m'. split; [done|]. by apply (visit_each_wakes _ evs m).
Qed.

(** X13.  Where the counts can be read and none is negative, repeating
    a notification changes nothing: no record changes and no semaphore is
    posted a second time. *)
Theorem poll_notify_again_changes_nothing evs d m :
  table_ok d → waiters_valid (_pollset d) m →
  counts_readable nuttx getvalue → counts_not_negative m →
  ∃ m', poll_notify nuttx getvalue evs d m = Done m'
    ∧ poll_notify nuttx getvalue evs d m' = Done m'.
Proof.
  intros Hok Hval Hread Hpos. rewrite !poll_notify_visits by done.
  destruct (visit_each_total nuttx getvalue _ evs m Hval) as [m' Hrun].
  exists m'. split; [done|]. rewrite poll_notify_visits by done.
  apply visit_each_settled; [done|].
  pose proof (visit_each_wakes _ _ _ _ Hread Hpos Hrun) as Hwoken.
  rewrite Forall_forall in Hwoken. apply Forall_forall.
  intros p Hin. destruct (Hwoken p Hin) as (f' & sm' & Hf' & Hsm' & Hup).
  exists f', sm'. split_and!; [done|done| |done].
  pose proof (visit_each_records _ _ _ _ Hrun p) as Hrec.
  rewrite decide_True, Hf' in Hrec by done.
  destruct (pollfds m !! p) as [f|]; [|done].
  injection Hrec as ->. apply notified_twice.
Qed.

End notify_effects.

(** ** A waiter from setup to teardown *)

Section waiter_life.
Context {S : Type} {ops : CDevOps S}.
Variable nuttx : bool.
Variable getvalue : px4_sem_t → option Z.
Implicit Types (t : list slot) (d : CDev) (fds p : ptr) (m : memory) (s : S)
  (f : px4_pollfd_struct_t) (sm : px4_sem_t) (evs : Z).

Lemma holders_none p t : holders p t = 0%nat ↔ Slot p ∉ t.
Proof.
  split.
  - intros Hzero Hin. apply list_elem_of_lookup in Hin as [i Hi].
    pose proof (holders_lookup _ _ _ Hi). lia.
  - induction t as [|c t IH]; [done|].
    rewrite not_elem_of_cons. intros [Hne Hnot].
    rewrite holders_cons, IH by done. unfold holds.
    by rewrite decide_False.
Qed.

(** A successful store leaves the waiter in an occupied slot. *)
Lemma store_poll_waiter_registers fds alloc d d' :
  table_ok d → fds ≠ nullptr →
  store_poll_waiter fds alloc d = Done (PX4_OK, d') →
  table_ok d' ∧ fds ∈ occupied (_pollset d').
Proof.
  intros Hok Hfds.
  destruct (first_at_or_absent (Slot nullptr) (_pollset d)) as [[i Hi]|Hfull].
  - rewrite (store_poll_waiter_free _ _ _ i) by done. intros [= <-].
    split; [by apply table_ok_insert|].
    apply occupied_elem. split; [done|]. cbn.
    eapply list_elem_of_lookup_2, list_lookup_insert_eq.
    eapply lookup_lt_Some, Hi.
  - rewrite store_poll_waiter_full by done.
    destruct (decide (128 ≤ _max_pollwaiters d)) as [Hmax|Hmax];
      [|destruct alloc]; [discriminate| |discriminate].
    intros [= <-]. split; [apply table_ok_grown; [done|lia]|].
    apply occupied_elem. split; [done|]. cbn. unfold grown_table.
    apply elem_of_app. right. apply list_elem_of_here.
Qed.

(** [poll] with [setup] on a mapped record with a mapped semaphore, when
    the store succeeds. *)
Lemma poll_setup_stored filep fds alloc d s m f sm d' :
  pollfds m !! fds = Some f → sems m !! sem f = Some sm →
  store_poll_waiter fds alloc d = Done (PX4_OK, d') →
  poll filep fds true alloc d s m
  = Done (PX4_OK, d', (poll_state filep s).2,
          let r := Z.lor (revents f)
                     (Z.land (events f) (poll_state filep s).1) in
          let m2 := store_pollfd m fds (mkPollfd (events f) r (sem f) filep) in
          if decide (r ≠ 0) then after_post (sem f) sm m2 else m2).
Proof.
  intros Hf Hsm Hstore. unfold poll, load_pollfd. rewrite Hf. step_bind.
  rewrite Hstore. step_bind. rewrite decide_True by done.
  cbn [store_pollfd pollfds sems posted]. rewrite lookup_insert_eq.
  step_bind. destruct (poll_state filep s) as [state s1].
  cbn [fst snd set_priv set_revents events revents sem priv].
  unfold store_pollfd. cbn [pollfds sems posted].
  rewrite insert_insert_eq. cbv zeta.
  case_decide; [|done].
  rewrite (px4_sem_post_mapped _ sm) by done. by step_bind.
Qed.

(** X14.  A waiter whose setup succeeded is in the table when [poll]
    returns, with [filep] in [priv] and the events [poll_state] reports
    already marked; the next notification marks [events & evs] in its
    [revents] as well. *)
Theorem poll_setup_then_notify_reaches_the_waiter
    filep fds alloc d s m f sm d' evs :
  table_ok d → fds ≠ nullptr →
  pollfds m !! fds = Some f → sems m !! sem f = Some sm →
  store_poll_waiter fds alloc d = Done (PX4_OK, d') →
  let ready := Z.lor (revents f) (Z.land (events f) (poll_state filep s).1) in
  ∃ m1,
    poll filep fds true alloc d s m
    = Done (PX4_OK, d', (poll_state filep s).2, m1)
    ∧ fds ∈ occupied (_pollset d')
    ∧ pollfds m1 !! fds = Some (mkPollfd (events f) ready (sem f) filep)
    ∧ (waiters_valid (_pollset d') m1 →
       ∃ m2, poll_notify nuttx getvalue evs d' m1 = Done m2
         ∧ pollfds m2 !! fds
           = Some (mkPollfd (events f)
                     (Z.lor ready (Z.land (events f) evs)) (sem f) filep)).
Proof.
  intros Hok Hfds Hf Hsm Hstore ready.
  destruct (store_poll_waiter_registers _ _ _ _ Hok Hfds Hstore)
    as [Hok' Hin].
  rewrite (poll_setup_stored _ _ _ _ _ _ f sm d') by done. cbv zeta.
  fold ready.
  set (m1 := if decide (ready ≠ 0)
             then after_post (sem f) sm
                    (store_pollfd m fds (mkPollfd (events f) ready (sem f) filep))
             else store_pollfd m fds (mkPollfd (events f) ready (sem f) filep)).
  assert (Hrec : pollfds m1 !! fds
                 = Some (mkPollfd (events f) ready (sem f) filep)).
  { subst m1. case_decide; cbn; apply lookup_insert_eq. }
  exists m1. split_and!; [done|done|done|].
  intros Hval. rewrite poll_notify_visits by done.
  destruct (visit_each_total nuttx getvalue _ evs m1 Hval) as [m2 Hrun].
  exists m2. split; [done|].
  rewrite (visit_each_records _ _ _ _ _ _ Hrun fds).
  rewrite decide_True, Hrec by done. done.
Qed.

(** X15.  The teardown of a waiter that sits in exactly one slot
    returns [PX4_OK] without touching the memory, and from then on a
    notification leaves the waiter's record alone. *)
Theorem poll_teardown_ends_the_notifications filep fds alloc d s m :
  table_ok d → holders fds (_pollset d) = 1%nat →
  ∃ d',
    poll filep fds false alloc d s m = Done (PX4_OK, d', s, m)
    ∧ table_ok d'
    ∧ (fds ∉ occupied (_pollset d'))
    ∧ ∀ evs m', poll_notify nuttx getvalue evs d' m = Done m' →
                pollfds m' !! fds = pollfds m !! fds.
Proof.
  intros Hok Hone.
  destruct (first_at_or_absent (Slot fds) (_pollset d)) as [[i Hi]|Hnot];
    [|apply holders_none in Hnot; lia].
  unfold poll. rewrite (remove_poll_waiter_found _ _ i) by done. step_bind.
  eexists. split; [done|].
  assert (Hok' : table_ok (set_pollset d (<[i:=Slot nullptr]> (_pollset d))))
    by by apply table_ok_insert.
  assert (Hgone : fds ∉ occupied (<[i:=Slot nullptr]> (_pollset d))).
  { rewrite occupied_elem. intros [Hne Hin]. revert Hin. apply holders_none.
    pose proof (holders_insert fds _ i _ (Slot nullptr) (proj1 Hi)) as H.
    unfold holds in H. rewrite decide_True in H by done.
    rewrite decide_False in H; [lia|]. intros [= E]. done. }
  split_and!; [done|done|].
  intros evs m'. rewrite poll_notify_visits by done. intros Hrun.
  rewrite (visit_each_records _ _ _ _ _ _ Hrun fds).
  by rewrite decide_False.
Qed.

End waiter_life.

(** ** The further properties at concrete inputs *)

Lemma open_count_is_opens_less_closes_witness :
  _open_count (CDev_new None) = 0
  ∧ Z.of_nat (length two_sessions) < 2 ^ Z.pos 16
  ∧ _open_count
      (run (ops := CDev_base_ops unit) 16 two_sessions (CDev_new None) tt).1.2
    = Z.of_nat
        (length
           (filter (λ st, open_succeeded st)
              (run (ops := CDev_base_ops unit) 16 two_sessions
                 (CDev_new None) tt).1.1))
      - Z.of_nat
          (length
             (filter (λ st, close_effective st)
                (run (ops := CDev_base_ops unit) 16 two_sessions
                   (CDev_new None) tt).1.1)).
Proof.
  assert (H0 : _open_count (CDev_new None) = 0) by reflexivity.
  assert (Hlen : Z.of_nat (length two_sessions) < 2 ^ Z.pos 16)
    by (vm_compute; reflexivity).
  split; [exact H0|]. split; [exact Hlen|].
  exact (open_count_is_opens_less_closes (ops := CDev_base_ops unit) 16
           two_sessions (CDev_new None) tt H0 Hlen).
Defined.

Lemma hooks_called_in_pairs_witness :
  _open_count (CDev_new None) = 0
  ∧ Z.of_nat (length two_sessions) < 2 ^ Z.pos 16
  ∧ hooks_paired false
      (run (ops := declining_ops) 16 two_sessions (CDev_new None) tt).1.1
    = true.
Proof.
  assert (H0 : _open_count (CDev_new None) = 0) by reflexivity.
  assert (Hlen : Z.of_nat (length two_sessions) < 2 ^ Z.pos 16)
    by (vm_compute; reflexivity).
  split; [exact H0|]. split; [exact Hlen|].
  exact (hooks_called_in_pairs (ops := declining_ops) 16
           two_sessions (CDev_new None) tt H0 Hlen).
Defined.

Lemma destructor_unregisters_what_init_registered_witness :
  init_each names_register_driver [∅; {["/dev/x"]}]
    (CDev_new (Some "/dev/x"))
  = ([PX4_OK; PX4_ERROR], mkCDev (Some "/dev/x") true 0 [] 0)
  ∧ CDev_destroy names_unregister_driver
      (init_each names_register_driver [∅; {["/dev/x"]}]
         (CDev_new (Some "/dev/x"))).2 {["/dev/x"]}
    = ((names_unregister_driver (Some "/dev/x") {["/dev/x"]}).2,
       [Some "/dev/x"]).
Proof.
  split; [vm_compute; reflexivity|].
  apply (destructor_unregisters_what_init_registered
           names_register_driver names_unregister_driver
           [∅; {["/dev/x"]}] (Some "/dev/x") {["/dev/x"]}).
  vm_compute. apply list_elem_of_here.
Defined.

(** The class "/dev/acc" when instances 0 and 1 are taken: instance 2
    is bound after two refusals. *)
Lemma register_class_devname_third_instance :
  register_class_devname names_register_driver (Some "/dev/acc")
    {["/dev/acc0"; "/dev/acc1"]}
  = (2, {["/dev/acc2"]} ∪ {["/dev/acc0"; "/dev/acc1"]},
     [("/dev/acc0", - EEXIST); ("/dev/acc1", - EEXIST); ("/dev/acc2", OK)]).
Proof. vm_compute. reflexivity. Qed.

Lemma names_register_driver_sign name ns :
  (names_register_driver name ns).1 ≤ 0.
Proof.
  unfold names_register_driver. case_decide; cbn; unfold EEXIST, PX4_OK; lia.
Defined.

Lemma class_instance_number_names_the_binding_witness :
  (∀ name ns, (names_register_driver name ns).1 ≤ 0)
  ∧ (unregister_class_devname names_unregister_driver "/dev/acc"
       (Z.to_N
          (register_class_devname names_register_driver (Some "/dev/acc")
             {["/dev/acc0"]}).1.1)
       ∅).2
    = snprintf_name "/dev/acc"
        (pretty
           (register_class_devname names_register_driver (Some "/dev/acc")
              {["/dev/acc0"]}).1.1).
Proof.
  split; [exact names_register_driver_sign|].
  destruct (class_instance_number_names_the_binding
              names_register_driver names_unregister_driver
              "/dev/acc" {["/dev/acc0"]} ∅ names_register_driver_sign)
    as [Hbound _].
  apply Hbound. vm_compute. discriminate.
Defined.

Lemma class_instance_names_witness :
  (String.length "/dev/acc" ≤ 30)%nat
  ∧ snprintf_name "/dev/acc" (pretty 2) = "/dev/acc" +:+ pretty 2.
Proof.
  assert (Hlen : (String.length "/dev/acc" ≤ 30)%nat) by (simpl; lia).
  split; [exact Hlen|].
  destruct (class_instance_names "/dev/acc") as [Hshort _].
  destruct (Hshort Hlen) as [Hname _].
  apply Hname. lia.
Defined.

Lemma store_then_remove_restores_the_slots_witness :
  table_ok one_waiter_dev ∧ 2%N ≠ nullptr
  ∧ (Slot 2%N ∉ _pollset one_waiter_dev)
  ∧ ∃ ret d1,
      store_poll_waiter 2%N true one_waiter_dev = Done (ret, d1)
      ∧ (ret = PX4_OK →
         ∃ d2, remove_poll_waiter 2%N d1 = Done (PX4_OK, d2)
               ∧ occupied (_pollset d2) = occupied (_pollset one_waiter_dev)).
Proof.
  assert (Hne : 2%N ≠ nullptr) by discriminate.
  assert (Hnew : Slot 2%N ∉ _pollset one_waiter_dev).
  { simpl. rewrite !not_elem_of_cons. split; [discriminate|].
    split; [discriminate|]. apply not_elem_of_nil. }
  split; [exact table_ok_one_waiter_dev|]. split; [exact Hne|].
  split; [exact Hnew|].
  destruct (store_then_remove_restores_the_slots 2%N true one_waiter_dev
              table_ok_one_waiter_dev Hne Hnew)
    as (ret & d1 & Hstore & Hok & _).
  exists ret, d1. split; [exact Hstore|].
  intros Hret. destruct (Hok Hret) as (d2 & Hremove & _ & _ & Hocc).
  exists d2. split; [exact Hremove|exact Hocc].
Defined.

Lemma one_waiter_valid : waiters_valid (_pollset one_waiter_dev) one_waiter_mem.
Proof.
  unfold waiters_valid. simpl. constructor; [|constructor].
  exists (mkPollfd 1 0 10%N 0%N). split; [reflexivity|].
  exists (mkSem 0). reflexivity.
Defined.

Lemma nuttx_counts_readable getvalue : counts_readable true getvalue.
Proof. intros sm. reflexivity. Defined.

Lemma one_waiter_counts : counts_not_negative one_waiter_mem.
Proof.
  intros s sm. simpl. intros H.
  apply lookup_singleton_Some in H as [_ <-]. simpl. lia.
Defined.

Lemma poll_notify_marks_the_registered_records_witness :
  table_ok one_waiter_dev
  ∧ waiters_valid (_pollset one_waiter_dev) one_waiter_mem
  ∧ ∃ m', poll_notify true (λ _, None) 1 one_waiter_dev one_waiter_mem
          = Done m'
          ∧ pollfds m' !! 1%N = Some (mkPollfd 1 1 10%N 0%N).
Proof.
  split; [exact table_ok_one_waiter_dev|]. split; [exact one_waiter_valid|].
  destruct (poll_notify_marks_the_registered_records true (λ _, None) 1
              one_waiter_dev one_waiter_mem
              table_ok_one_waiter_dev one_waiter_valid)
    as (m' & Hrun & Hrec).
  exists m'. split; [exact Hrun|].
  rewrite (Hrec 1%N). reflexivity.
Defined.

Lemma poll_notify_posts_sleepers_only_witness :
  table_ok one_waiter_dev
  ∧ waiters_valid (_pollset one_waiter_dev) one_waiter_mem
  ∧ ∃ m', poll_notify true (λ _, None) 1 one_waiter_dev one_waiter_mem
          = Done m'
          ∧ ∀ b, sems m' !! 10%N = Some b → 0 ≤ semcount b ≤ 1.
Proof.
  split; [exact table_ok_one_waiter_dev|]. split; [exact one_waiter_valid|].
  destruct (poll_notify_posts_sleepers_only true (λ _, None) 1
              one_waiter_dev one_waiter_mem
              table_ok_one_waiter_dev one_waiter_valid)
    as (m' & Hrun & _ & Hcount & _).
  exists m'. split; [exact Hrun|].
  intros b Hb.
  destruct (Hcount 10%N (mkSem 0) b) as [Hle Hmax];
    [reflexivity|exact Hb|].
  specialize (Hmax (nuttx_counts_readable _)). simpl in Hle, Hmax. lia.
Defined.

Lemma poll_notify_wakes_every_ready_waiter_witness :
  table_ok one_waiter_dev
  ∧ waiters_valid (_pollset one_waiter_dev) one_waiter_mem
  ∧ counts_readable true (λ _, None)
  ∧ counts_not_negative one_waiter_mem
  ∧ ∃ m', poll_notify true (λ _, None) 1 one_waiter_dev one_waiter_mem
          = Done m'
          ∧ Forall (woken m') (occupied (_pollset one_waiter_dev)).
Proof.
  split; [exact table_ok_one_waiter_dev|]. split; [exact one_waiter_valid|].
  split; [exact (nuttx_counts_readable _)|]. split; [exact one_waiter_counts|].
  exact (poll_notify_wakes_every_ready_waiter true (λ _, None) 1
           one_waiter_dev one_waiter_mem
           table_ok_one_waiter_dev one_waiter_valid
           (nuttx_counts_readable _) one_waiter_counts).
Defined.

Lemma poll_notify_again_changes_nothing_witness :
  table_ok one_waiter_dev
  ∧ waiters_valid (_pollset one_waiter_dev) one_waiter_mem
  ∧ counts_readable true (λ _, None)
  ∧ counts_not_negative one_waiter_mem
  ∧ ∃ m', poll_notify true (λ _, None) 1 one_waiter_dev one_waiter_mem
          = Done m'
          ∧ poll_notify true (λ _, None) 1 one_waiter_dev m' = Done m'.
Proof.
  split; [exact table_ok_one_waiter_dev|]. split; [exact one_waiter_valid|].
  split; [exact (nuttx_counts_readable _)|]. split; [exact one_waiter_counts|].
  exact (poll_notify_again_changes_nothing true (λ _, None) 1
           one_waiter_dev one_waiter_mem
           table_ok_one_waiter_dev one_waiter_valid
           (nuttx_counts_readable _) one_waiter_counts).
Defined.

Lemma poll_setup_then_notify_reaches_the_waiter_witness :
  table_ok (CDev_new None) ∧ 1%N ≠ nullptr
  ∧ pollfds one_waiter_mem !! 1%N = Some (mkPollfd 1 0 10%N 0%N)
  ∧ sems one_waiter_mem !! 10%N = Some (mkSem 0)
  ∧ store_poll_waiter 1%N true (CDev_new None)
    = Done (PX4_OK, mkCDev None false 0 [Slot 1%N] 1)
  ∧ ∃ m1,
      poll (ops := declining_ops) 7%N 1%N true true (CDev_new None) tt
        one_waiter_mem
      = Done (PX4_OK, mkCDev None false 0 [Slot 1%N] 1, tt, m1)
      ∧ pollfds m1 !! 1%N = Some (mkPollfd 1 1 10%N 7%N).
Proof.
  assert (Hne : 1%N ≠ nullptr) by discriminate.
  assert (Hf : pollfds one_waiter_mem !! 1%N = Some (mkPollfd 1 0 10%N 0%N))
    by reflexivity.
  assert (Hsm : sems one_waiter_mem !! sem (mkPollfd 1 0 10%N 0%N)
                = Some (mkSem 0)) by reflexivity.
  assert (Hstore : store_poll_waiter 1%N true (CDev_new None)
                   = Done (PX4_OK, mkCDev None false 0 [Slot 1%N] 1))
    by reflexivity.
  split; [exact table_ok_new|]. split; [exact Hne|]. split; [exact Hf|].
  split; [exact Hsm|]. split; [exact Hstore|].
  destruct (poll_setup_then_notify_reaches_the_waiter (ops := declining_ops)
              true (λ _, None) 7%N 1%N true (CDev_new None) tt one_waiter_mem
              (mkPollfd 1 0 10%N 0%N) (mkSem 0)
              (mkCDev None false 0 [Slot 1%N] 1) 4
              table_ok_new Hne Hf Hsm Hstore)
    as (m1 & Hpoll & _ & Hrec & _).
  exists m1. split; [exact Hpoll|exact Hrec].
Defined.

Lemma poll_teardown_ends_the_notifications_witness :
  table_ok one_waiter_dev
  ∧ holders 1%N (_pollset one_waiter_dev) = 1%nat
  ∧ ∃ d',
      poll (ops := declining_ops) 7%N 1%N false true one_waiter_dev tt
        one_waiter_mem
      = Done (PX4_OK, d', tt, one_waiter_mem)
      ∧ 1%N ∉ occupied (_pollset d').
Proof.
  assert (Hone : holders 1%N (_pollset one_waiter_dev) = 1%nat)
    by reflexivity.
  split; [exact table_ok_one_waiter_dev|]. split; [exact Hone|].
  destruct (poll_teardown_ends_the_notifications (ops := declining_ops)
              true (λ _, None) 7%N 1%N true one_waiter_dev tt one_waiter_mem
              table_ok_one_waiter_dev Hone)
    as (d' & Hpoll & _ & Hgone & _).
  exists d'. split; [exact Hpoll|exact Hgone].
Defined.

(** * The notification path, the setup and the registration, in terms of
      what is stored *)

Section notify_claims.
Variable nuttx : bool.
Variable getvalue : px4_sem_t → option Z.
Implicit Types (t : list slot) (d : CDev) (p q s : ptr) (m : memory)
  (f : px4_pollfd_struct_t) (sm : px4_sem_t) (evs : Z) (ps : list ptr).

(** One visit, with the memory it leaves written out. *)
Lemma poll_notify_one_stores p evs m f sm :
  pollfds m !! p = Some f → sems m !! sem f = Some sm →
  poll_notify_one nuttx getvalue p evs m
  = Done (let r := Z.lor (revents f) (Z.land (events f) evs) in
          let recs := <[p := mkPollfd (events f) r (sem f) (priv f)]>
                        (pollfds m) in
          if decide (r ≠ 0 ∧ seems_asleep nuttx getvalue sm)
          then mkMemory recs (<[sem f := mkSem (semcount sm + 1)]> (sems m))
                        (posted m ++ [sem f])
          else mkMemory recs (sems m) (posted m)).
Proof.
  intros Hf Hsm. rewrite (poll_notify_one_mapped _ _ _ _ _ f sm) by done.
  cbv zeta. by case_decide.
Qed.

(** A semaphore is not posted by visits of waiters that either sleep on
    another semaphore or are left with nothing ready. *)
Lemma visit_each_quiet ps evs s : ∀ m m',
  visit_each nuttx getvalue ps evs m = Done m' →
  (∀ q fq, q ∈ ps → pollfds m !! q = Some fq → sem fq = s →
     Z.lor (revents fq) (Z.land (events fq) evs) = 0) →
  sems m' !! s = sems m !! s ∧ ∃ l, posted m' = posted m ++ l ∧ s ∉ l.
Proof.
  induction ps as [|p0 ps IH]; intros m m' Hrun Hquiet.
  - cbn in Hrun. injection Hrun as <-. split; [done|].
    exists []. split; [by rewrite app_nil_r|apply not_elem_of_nil].
  - apply visit_each_step in Hrun as (m1 & f & sm & Hf & Hsm & Hone & Hrest).
    pose proof (poll_notify_one_records _ _ _ _ _ _ _ Hf Hone) as Hrecs.
    destruct (IH _ _ Hrest) as (Hsems & l & Hposted & Hl).
    { intros q fq Hin. rewrite Hrecs.
      destruct (decide (p0 = q)) as [<-|Hne].
      - rewrite lookup_insert_eq. intros [= <-] Hsem. cbn in *.
        rewrite <- Z.lor_assoc, Z.lor_diag.
        apply (Hquiet p0 f); [apply list_elem_of_here|done|done].
      - rewrite lookup_insert_ne by done.
        apply Hquiet. by apply list_elem_of_further. }
    rewrite (poll_notify_one_stores _ _ _ f sm) in Hone by done.
    injection Hone as Hm1. cbv zeta in Hm1. revert Hm1.
    case_decide as Hpost; intros <-; cbn [sems posted] in *.
    + assert (Hne : sem f ≠ s).
      { intros Heq. destruct Hpost as [Hr _]. apply Hr.
        apply (Hquiet p0 f); [apply list_elem_of_here|done|done]. }
      rewrite lookup_insert_ne in Hsems by done. split; [done|].
      exists (sem f :: l). rewrite Hposted, <- app_assoc. split; [done|].
      rewrite not_elem_of_cons. split; [congruence|done].
    + split; [done|]. by exists l.
Qed.

(** C1.  [poll_notify(evs)] visits the occupied slots in slot order and
    skips the empty ones.  A visit leaves in the waiter's record its
    [revents] ORed with [events & evs] and posts the waiter's semaphore,
    once, exactly when the resulting [revents] is non-zero and the count
    read from the semaphore is <= 0 or could not be read; nothing else
    changes.  With no occupied slot the call returns with the memory
    unchanged, and with valid waiters it completes and every registered
    record holds its [revents] ORed with [events & evs]. *)
Theorem poll_notify_visits_each_waiter evs d m :
  table_ok d →
  poll_notify nuttx getvalue evs d m
  = visit_each nuttx getvalue (occupied (_pollset d)) evs m
  ∧ (∀ p m0 f sm,
       pollfds m0 !! p = Some f → sems m0 !! sem f = Some sm →
       let r := Z.lor (revents f) (Z.land (events f) evs) in
       let recs := <[p := mkPollfd (events f) r (sem f) (priv f)]>
                     (pollfds m0) in
       poll_notify_one nuttx getvalue p evs m0
       = Done (if decide (r ≠ 0 ∧ seems_asleep nuttx getvalue sm)
               then mkMemory recs
                      (<[sem f := mkSem (semcount sm + 1)]> (sems m0))
                      (posted m0 ++ [sem f])
               else mkMemory recs (sems m0) (posted m0)))
  ∧ (occupied (_pollset d) = [] →
       poll_notify nuttx getvalue evs d m = Done m)
  ∧ (waiters_valid (_pollset d) m →
       ∃ m', poll_notify nuttx getvalue evs d m = Done m'
         ∧ ∀ p f, p ∈ occupied (_pollset d) → pollfds m !! p = Some f →
             pollfds m' !! p
             = Some (mkPollfd (events f)
                       (Z.lor (revents f) (Z.land (events f) evs))
                       (sem f) (priv f))).
Proof.
  intros Hok. rewrite poll_notify_visits by done. split_and!.
  - done.
  - intros p m0 f sm Hf Hsm. by apply poll_notify_one_stores.
  - by intros ->.
  - intros Hval.
    destruct (visit_each_total nuttx getvalue _ evs m Hval) as [m' Hrun].
    exists m'. split; [done|]. intros p f Hin Hf.
    rewrite (visit_each_records _ _ _ _ _ _ Hrun p).
    by rewrite decide_True, Hf.
Qed.

(** C8, amended.  A waiter whose [events] does not meet [evs] keeps its
    [revents] (its whole record) through [poll_notify(evs)].  When its
    [revents] is 0 and no other registered waiter sleeps on its semaphore,
    the call does not post its semaphore: the count is as before and the
    semaphore is not among those posted.  Otherwise its own visit posts
    its semaphore exactly when its [revents] was already non-zero and the
    count read is <= 0 or could not be read, and leaves the memory as it
    is when it does not. *)
Theorem poll_notify_other_interest evs d m p f :
  table_ok d →
  pollfds m !! p = Some f →
  Z.land (events f) evs = 0 →
  (waiters_valid (_pollset d) m →
     ∃ m', poll_notify nuttx getvalue evs d m = Done m')
  ∧ (∀ m', poll_notify nuttx getvalue evs d m = Done m' →
       pollfds m' !! p = Some f)
  ∧ (∀ m', poll_notify nuttx getvalue evs d m = Done m' →
       revents f = 0 →
       (∀ q fq, q ∈ occupied (_pollset d) → q ≠ p →
          pollfds m !! q = Some fq → sem fq ≠ sem f) →
       sems m' !! sem f = sems m !! sem f
       ∧ ∃ l, posted m' = posted m ++ l ∧ sem f ∉ l)
  ∧ (∀ m0 sm,
       pollfds m0 !! p = Some f → sems m0 !! sem f = Some sm →
       poll_notify_one nuttx getvalue p evs m0
       = Done (if decide (revents f ≠ 0 ∧ seems_asleep nuttx getvalue sm)
               then mkMemory (pollfds m0)
                      (<[sem f := mkSem (semcount sm + 1)]> (sems m0))
                      (posted m0 ++ [sem f])
               else m0)).
Proof.
  intros Hok Hf Hdisj. rewrite !poll_notify_visits by done. split_and!.
  - intros Hval. by apply visit_each_total.
  - intros m' Hrun. by eapply visit_each_keeps.
  - intros m' Hrun Hzero Halone.
    apply (visit_each_quiet _ evs (sem f) m m' Hrun).
    intros q fq Hin Hfq Hsem.
    destruct (decide (q = p)) as [->|Hne].
    + replace fq with f by congruence. by rewrite Hzero, Hdisj.
    + by destruct (Halone q fq Hin Hne Hfq).
  - intros m0 sm Hf0 Hsm0.
    rewrite (poll_notify_one_mapped _ _ _ _ _ f sm) by done. cbv zeta.
    rewrite Hdisj, Z.lor_0_r, set_revents_same, store_pollfd_same by done.
    by case_decide.
Qed.

End notify_claims.

Section poll_claims.
Context {S : Type} {ops : CDevOps S}.
Implicit Types (d : CDev) (fds : ptr) (m : memory) (s : S)
  (f : px4_pollfd_struct_t) (sm : px4_sem_t).

(** C2.  [poll(filep, fds, true)]: [filep] is stored in [fds->priv],
    then [store_poll_waiter(fds)] is called.  If that returns [PX4_OK],
    [events & poll_state(filep)] is ORed into [revents] and, when
    [revents] is then non-zero, the semaphore is posted before [poll]
    returns.  [poll] returns what [store_poll_waiter] returned, [-ENOMEM]
    when the table is full at its maximum, and then only [priv] has
    changed.  The [poll_state] of the base class reports no events. *)
Theorem poll_setup_registers_and_checks_state filep fds alloc d s m f :
  table_ok d →
  pollfds m !! fds = Some f →
  ∃ ret d',
    store_poll_waiter fds alloc d = Done (ret, d')
    ∧ let state := (poll_state filep s).1 in
      let s' := (poll_state filep s).2 in
      let r := Z.lor (revents f) (Z.land (events f) state) in
      let stored := <[fds := mkPollfd (events f) (revents f) (sem f) filep]>
                      (pollfds m) in
      let checked := <[fds := mkPollfd (events f) r (sem f) filep]>
                       (pollfds m) in
      (ret ≠ PX4_OK →
         poll filep fds true alloc d s m
         = Done (ret, d', s, mkMemory stored (sems m) (posted m)))
      ∧ (ret = PX4_OK → r = 0 →
           poll filep fds true alloc d s m
           = Done (PX4_OK, d', s', mkMemory checked (sems m) (posted m)))
      ∧ (ret = PX4_OK → r ≠ 0 → ∀ sm, sems m !! sem f = Some sm →
           poll filep fds true alloc d s m
           = Done (PX4_OK, d', s',
                   mkMemory checked
                     (<[sem f := mkSem (semcount sm + 1)]> (sems m))
                     (posted m ++ [sem f])))
      ∧ (Slot nullptr ∉ _pollset d → 128 ≤ _max_pollwaiters d →
           poll filep fds true alloc d s m
           = Done (- ENOMEM, d, s, mkMemory stored (sems m) (posted m)))
      ∧ (∀ (s0 : S), CDev_poll_state filep s0 = (0, s0)).
Proof.
  intros Hok Hf.
  destruct (store_poll_waiter_total fds alloc d Hok) as (ret & d' & Hstore).
  exists ret, d'. split; [done|]. cbv zeta.
  assert (Hpoll : poll filep fds true alloc d s m
    = if decide (ret = PX4_OK) then
        let r := Z.lor (revents f)
                   (Z.land (events f) (poll_state filep s).1) in
        let m2 := mkMemory
                    (<[fds := mkPollfd (events f) r (sem f) filep]> (pollfds m))
                    (sems m) (posted m) in
        if decide (r ≠ 0)
        then m3 ← px4_sem_post (sem f) m2;
             Done (ret, d', (poll_state filep s).2, m3)
        else Done (ret, d', (poll_state filep s).2, m2)
      else Done (ret, d', s,
                 mkMemory
                   (<[fds := mkPollfd (events f) (revents f) (sem f) filep]>
                      (pollfds m))
                   (sems m) (posted m))).
  { unfold poll, load_pollfd. rewrite Hf. step_bind.
    rewrite Hstore. step_bind.
    destruct (decide (ret = PX4_OK)) as [Eret|Eret]; [|done].
    cbn [store_pollfd pollfds sems posted]. rewrite lookup_insert_eq.
    step_bind. destruct (poll_state filep s) as [state s1].
    cbn [fst snd set_priv set_revents events revents sem priv].
    unfold store_pollfd. cbn [pollfds sems posted].
    rewrite insert_insert_eq. done. }
  split_and!.
  - intros Hret. rewrite Hpoll. by rewrite decide_False.
  - intros Hret Hr. rewrite Hpoll, decide_True by done. cbv zeta.
    rewrite decide_False by (intros H; by apply H). by rewrite Hret.
  - intros Hret Hr sm Hsm. rewrite Hpoll, decide_True by done. cbv zeta.
    rewrite decide_True by done.
    rewrite (px4_sem_post_mapped _ sm) by done. step_bind. by rewrite Hret.
  - intros Hfull Hmax.
    rewrite store_poll_waiter_full, decide_True in Hstore by done.
    injection Hstore as <- <-. rewrite Hpoll. by rewrite decide_False.
  - done.
Qed.

End poll_claims.

Section registration_claims.
Context {NS : Type}.
Variable register_driver : string → NS → Z * NS.

(** C9, amended.  [init()] with a name calls [register_driver] with
    it, once, on every call, whether or not the device is already
    registered: if the bind succeeds the registration flag is [true] in
    the device returned, whose other members are as before, and [PX4_OK]
    is returned; if it fails [PX4_ERROR] is returned and the device, its
    flag included, is left as it was.  Without a name [PX4_ERROR] is
    returned, nothing is bound and nothing changes. *)
Theorem init_binds_and_sets_flag d ns :
  (∀ name, _devname d = Some name →
     (register_driver name ns).1 = PX4_OK →
     init register_driver d ns
     = (PX4_OK,
        mkCDev (Some name) true (_open_count d) (_pollset d)
          (_max_pollwaiters d),
        (register_driver name ns).2, [name])
     ∧ _registered (init register_driver d ns).1.1.2 = true)
  ∧ (∀ name, _devname d = Some name →
       (register_driver name ns).1 ≠ PX4_OK →
       init register_driver d ns
       = (PX4_ERROR, d, (register_driver name ns).2, [name])
       ∧ _registered (init register_driver d ns).1.1.2 = _registered d)
  ∧ (_devname d = None → init register_driver d ns = (PX4_ERROR, d, ns, []))
  ∧ (∀ name, _devname d = Some name →
       (init register_driver d ns).2 = [name]
       ∧ (init register_driver d ns).1.2 = (register_driver name ns).2).
Proof.
  unfold init. split_and!.
  - intros name Hname Hr. rewrite Hname.
    destruct (register_driver name ns) as [r ns'].
    cbn in *. rewrite decide_True by done. cbn.
    unfold set_registered. by rewrite Hname.
  - intros name -> Hr. destruct (register_driver name ns) as [r ns'].
    cbn in *. by rewrite decide_False.
  - by intros ->.
  - intros name ->. destruct (register_driver name ns) as [r ns'].
    by case_decide.
Qed.

End registration_claims.

(** ** These statements at concrete inputs *)

Lemma poll_notify_visits_each_waiter_witness :
  table_ok one_waiter_dev
  ∧ poll_notify true (λ _, None) 1 one_waiter_dev one_waiter_mem
    = Done (mkMemory {[ 1%N := mkPollfd 1 1 10%N 0%N ]}
                     {[ 10%N := mkSem 1 ]} [10%N]).
Proof.
  split; [exact table_ok_one_waiter_dev|].
  destruct (poll_notify_visits_each_waiter true (λ _, None) 1 one_waiter_dev
              one_waiter_mem table_ok_one_waiter_dev) as (Hvisit & Hone & _).
  rewrite Hvisit.
  change (occupied (_pollset one_waiter_dev)) with [1%N].
  cbn [visit_each].
  rewrite (Hone 1%N one_waiter_mem (mkPollfd 1 0 10%N 0%N) (mkSem 0)
             eq_refl eq_refl).
  vm_compute. reflexivity.
Defined.

Lemma poll_notify_other_interest_witness :
  table_ok one_waiter_dev
  ∧ pollfds ready_waiter_mem !! 1%N = Some (mkPollfd 1 1 10%N 0%N)
  ∧ Z.land (events (mkPollfd 1 1 10%N 0%N)) 4 = 0
  ∧ poll_notify_one true (λ _, None) 1%N 4 ready_waiter_mem
    = Done (mkMemory {[ 1%N := mkPollfd 1 1 10%N 0%N ]}
                     {[ 10%N := mkSem 1 ]} [10%N])
  ∧ pollfds one_waiter_mem !! 1%N = Some (mkPollfd 1 0 10%N 0%N)
  ∧ Z.land (events (mkPollfd 1 0 10%N 0%N)) 4 = 0
  ∧ ∃ m', poll_notify true (λ _, None) 4 one_waiter_dev one_waiter_mem
          = Done m'
          ∧ pollfds m' !! 1%N = Some (mkPollfd 1 0 10%N 0%N)
          ∧ sems m' !! 10%N = Some (mkSem 0)
          ∧ ∃ l, posted m' = [] ++ l ∧ 10%N ∉ l.
Proof.
  assert (Hready : pollfds ready_waiter_mem !! 1%N
                   = Some (mkPollfd 1 1 10%N 0%N)) by reflexivity.
  assert (Hidle : pollfds one_waiter_mem !! 1%N
                  = Some (mkPollfd 1 0 10%N 0%N)) by reflexivity.
  assert (Hd1 : Z.land (events (mkPollfd 1 1 10%N 0%N)) 4 = 0) by reflexivity.
  assert (Hd0 : Z.land (events (mkPollfd 1 0 10%N 0%N)) 4 = 0) by reflexivity.
  split; [exact table_ok_one_waiter_dev|].
  split; [exact Hready|]. split; [exact Hd1|]. split.
  { destruct (poll_notify_other_interest true (λ _, None) 4 one_waiter_dev
                ready_waiter_mem 1%N (mkPollfd 1 1 10%N 0%N)
                table_ok_one_waiter_dev Hready Hd1) as (_ & _ & _ & Hone).
    rewrite (Hone ready_waiter_mem (mkSem 0) eq_refl eq_refl).
    vm_compute. reflexivity. }
  split; [exact Hidle|]. split; [exact Hd0|].
  destruct (poll_notify_other_interest true (λ _, None) 4 one_waiter_dev
              one_waiter_mem 1%N (mkPollfd 1 0 10%N 0%N)
              table_ok_one_waiter_dev Hidle Hd0)
    as (Hruns & Hkeeps & Hquiet & _).
  destruct (Hruns one_waiter_valid) as [m' Hrun].
  exists m'. split; [exact Hrun|]. split; [exact (Hkeeps m' Hrun)|].
  apply (Hquiet m' Hrun eq_refl).
  intros q fq Hin Hne.
  change (occupied (_pollset one_waiter_dev)) with [1%N] in Hin.
  apply list_elem_of_singleton in Hin. contradiction.
Defined.

(** C8 as it was stated fails in two ways.  A waiter that still has an
    event marked ready while its semaphore count is 0 is posted by its own
    visit in a notification for event bit 2, in which it (interested in bit
    0) has no interest.  And a waiter with nothing ready is posted, in the
    same notification, by the visit of another waiter (interested in bit 2)
    that sleeps on the same semaphore. *)
Lemma poll_notify_other_interest_counterexample :
  (pollfds ready_waiter_mem !! 1%N = Some (mkPollfd 1 1 10%N 0%N)
   ∧ Z.land (events (mkPollfd 1 1 10%N 0%N)) 4 = 0
   ∧ sems ready_waiter_mem !! 10%N = Some (mkSem 0)
   ∧ posted ready_waiter_mem = []
   ∧ poll_notify true (λ _, None) 4 one_waiter_dev ready_waiter_mem
     = Done (mkMemory {[ 1%N := mkPollfd 1 1 10%N 0%N ]}
                      {[ 10%N := mkSem 1 ]} [10%N]))
  ∧ (pollfds shared_sem_mem !! 1%N = Some (mkPollfd 1 0 10%N 0%N)
     ∧ Z.land (events (mkPollfd 1 0 10%N 0%N)) 4 = 0
     ∧ sems shared_sem_mem !! 10%N = Some (mkSem 0)
     ∧ posted shared_sem_mem = []
     ∧ poll_notify true (λ _, None) 4 two_waiter_dev shared_sem_mem
       = Done (mkMemory {[ 1%N := mkPollfd 1 0 10%N 0%N;
                           2%N := mkPollfd 4 4 10%N 0%N ]}
                        {[ 10%N := mkSem 1 ]} [10%N])).
Proof.
  split.
  - split; [reflexivity|]. split; [reflexivity|]. split; [reflexivity|].
    split; [reflexivity|]. vm_compute. reflexivity.
  - split; [reflexivity|]. split; [reflexivity|]. split; [reflexivity|].
    split; [reflexivity|]. vm_compute. reflexivity.
Qed.

Lemma poll_setup_registers_and_checks_state_witness :
  table_ok (CDev_new None)
  ∧ pollfds one_waiter_mem !! 1%N = Some (mkPollfd 1 0 10%N 0%N)
  ∧ poll (ops := declining_ops) 7%N 1%N true true (CDev_new None) tt
      one_waiter_mem
    = Done (PX4_OK, mkCDev None false 0 [Slot 1%N] 1, tt,
            mkMemory {[ 1%N := mkPollfd 1 1 10%N 7%N ]}
                     {[ 10%N := mkSem 1 ]} [10%N]).
Proof.
  assert (Hf : pollfds one_waiter_mem !! 1%N = Some (mkPollfd 1 0 10%N 0%N))
    by reflexivity.
  split; [exact table_ok_new|]. split; [exact Hf|].
  destruct (poll_setup_registers_and_checks_state (ops := declining_ops)
              7%N 1%N true (CDev_new None) tt one_waiter_mem
              (mkPollfd 1 0 10%N 0%N) table_ok_new Hf)
    as (ret & d' & Hstore & _ & _ & Hpost & _).
  vm_compute in Hstore. injection Hstore as <- <-.
  rewrite (Hpost eq_refl) with (sm := mkSem 0);
    [vm_compute; reflexivity|discriminate|reflexivity].
Defined.

Lemma init_binds_and_sets_flag_witness :
  init names_register_driver (CDev_new (Some "/dev/x")) ∅
  = (PX4_OK, mkCDev (Some "/dev/x") true 0 [] 0, {["/dev/x"]} ∪ ∅,
     ["/dev/x"])
  ∧ _registered
      (init names_register_driver (CDev_new (Some "/dev/x")) ∅).1.1.2
    = true.
Proof.
  destruct (init_binds_and_sets_flag names_register_driver
              (CDev_new (Some "/dev/x")) ∅) as [Hbound _].
  exact (Hbound "/dev/x" eq_refl eq_refl).
Defined.

(** C9 as it was stated fails on a device that is registered.  The
    first [init()] of a new device binds the name and sets the flag.  A
    further [init()] calls [register_driver] all the same: where the name
    has meanwhile become free in the namespace it is bound again and
    [PX4_OK] is returned; where it is still bound the attempt is made and
    fails. *)
Lemma init_registered_counterexample :
  init names_register_driver (CDev_new (Some "/dev/x")) ∅
  = (PX4_OK, mkCDev (Some "/dev/x") true 0 [] 0, {["/dev/x"]} ∪ ∅,
     ["/dev/x"])
  ∧ init names_register_driver (mkCDev (Some "/dev/x") true 0 [] 0) ∅
    = (PX4_OK, mkCDev (Some "/dev/x") true 0 [] 0, {["/dev/x"]} ∪ ∅,
       ["/dev/x"])
  ∧ init names_register_driver (mkCDev (Some "/dev/x") true 0 [] 0)
      {["/dev/x"]}
    = (PX4_ERROR, mkCDev (Some "/dev/x") true 0 [] 0, {["/dev/x"]},
       ["/dev/x"]).
Proof.
  split; [reflexivity|]. split; [reflexivity|].
  vm_compute. reflexivity.
Qed.
End cdev.
